(** * filter/main.cc: the OpenCL stream-filter benchmark

    A shallow embedding of the two device kernels of the program string
    [src] ([filter] and [count_positive]), of the NDRange dispatch that runs
    them, and of the host routine [profile_filter] that drives the device.

    Conventions.
    - A C [int] is a [Z] reduced to 32 bits by [Int32.to_int].
    - A [float] is an IEEE-754 binary32 value, [spec_float] of the Standard
      Library; the only float operation of the program is the test [x > 0].
    - A device or host array is a [list]; an access outside the array is not
      defined by OpenCL C and is the error [Fault].
    - Failing OpenCL API calls throw [cl::Error] (CL_HPP_ENABLE_EXCEPTIONS);
      they are the other constructors of [cl_error]. *)

From Stdlib Require Import ZArith List Lia Bool String Ascii DecimalString.
From Stdlib Require Import Floats.SpecFloat.
From stdpp Require Import base list.
Import ListNotations.
Open Scope Z_scope.

(** ** 32-bit integers *)

Module Int32.

Definition INT_MAX : Z := 2147483647.

(** Conversion to [int]: reduction modulo 2^32 into [-2^31, 2^31). *)
Definition to_int (z : Z) : Z := (z + 2 ^ 31) mod 2 ^ 32 - 2 ^ 31.

End Int32.

(** ** Single-precision floats *)

Module Float32.

Definition float : Type := spec_float.

(** The conversion of an integer constant to [float] (24-bit precision,
    exponent bound 128), round to nearest even. *)
Definition of_int (z : Z) : float := binary_normalize 24 128 z 0 false.

(** [x > y]; false as soon as one side is a NaN. *)
Definition gt (x y : float) : bool := SFltb y x.

(** The predicate of the benchmark, [x > 0], with [0] converted to float. *)
Definition positive (x : float) : bool := gt x (of_int 0).

End Float32.

Import Int32 Float32.

(** ** Outcomes of device and API operations *)

Inductive cl_error : Type :=
| Fault                         (* access outside an array *)
| CL_INVALID_BUFFER_SIZE        (* clCreateBuffer with size 0 *)
| CL_INVALID_GLOBAL_WORK_SIZE   (* NDRange with global size 0 *)
| CL_INVALID_WORK_GROUP_SIZE.   (* local size does not divide global size *)

Inductive outcome (A : Type) : Type :=
| Ok (a : A)
| Err (e : cl_error).

Arguments Ok {A} a.
Arguments Err {A} e.

#[global] Instance outcome_ret : MRet outcome := fun A a => Ok a.
#[global] Instance outcome_bind : MBind outcome :=
  fun A B f m => match m with Ok a => f a | Err e => Err e end.

(** Run [body] once per element of [xs], left to right, threading the state. *)
Fixpoint for_each {X S : Type} (body : X -> S -> outcome S) (xs : list X) (s : S)
  : outcome S :=
  match xs with
  | [] => Ok s
  | x :: xs' => s' ← body x s; for_each body xs' s'
  end.

(** ** Arrays *)

(** [buf[i]] as an rvalue. *)
Definition rd {A : Type} (buf : list A) (i : Z) : outcome A :=
  if 0 <=? i then
    match buf !! Z.to_nat i with
    | Some x => Ok x
    | None => Err Fault
    end
  else Err Fault.

(** [buf[i] = x]. *)
Definition wr {A : Type} (buf : list A) (i : Z) (x : A) : outcome (list A) :=
  if (0 <=? i) && (i <? Z.of_nat (length buf)) then Ok (<[Z.to_nat i := x]> buf)
  else Err Fault.

(** Storage of [len] cells that nothing has initialised: any content [g]. *)
Definition uninit {A : Type} (g : nat -> A) (len : nat) : list A :=
  map g (seq 0 len).

(** ** The device program *)

(** What the work-item functions return for one work-item (dimension 0). *)
Record work_item : Type := WorkItem {
  global_id : nat;     (* get_global_id(0) *)
  global_size : nat;   (* get_global_size(0) *)
  local_id : nat;      (* get_local_id(0) *)
  local_size : nat;    (* get_local_size(0) *)
  group_id : nat       (* get_group_id(0) *)
}.

(** The implicit conversion of a [size_t] to [int]. *)
Definition as_int (x : nat) : Z := to_int (Z.of_nat x).

Module Kernel.

Definition BUFFSIZE : nat := 1024.

(** [kernel void filter(input, res_size, result)], for one work-item.
    The state is the pair of the two writable buffers. *)
Definition filter (w : work_item) (input : list float)
    (bufs : list Z * list float) : outcome (list Z * list float) :=
  let '(res_size, result) := bufs in
  let i := as_int (global_id w) in
  let n := as_int (global_size w) in
  let t := as_int (local_id w) in
  if i =? 0 then
    res_size' ← wr res_size 0 n;
    Ok (res_size', result)
  else Ok (res_size, result).

(** The index of the element a lane loads: [k * m + t] in [int]. *)
Definition load_index (w : work_item) : Z :=
  let m := as_int (local_size w) in
  let k := as_int (group_id w) in
  let t := as_int (local_id w) in
  to_int (to_int (k * m) + t).

(** [count_positive], the statement before the barrier:
    [buff[t] = a[k * m + t];] *)
Definition count_positive_load (w : work_item) (a : list float)
    (buff : list float) : outcome (list float) :=
  let t := as_int (local_id w) in
  x ← rd a (load_index w);
  wr buff t x.

(** [for (int j = 0; j < m; j++) if (buff[j] > 0) cnt++;]
    [iters] is the number of iterations still to run: the loop runs
    [max m 0] times, [j] stays below [m <= INT_MAX] and never wraps. *)
Fixpoint count_loop (iters : nat) (buff : list float) (j cnt : Z) : outcome Z :=
  match iters with
  | O => Ok cnt
  | S iters' =>
      x ← rd buff j;
      count_loop iters' buff (j + 1)
                 (if positive x then to_int (cnt + 1) else cnt)
  end.

(** [count_positive], the statements after the barrier. *)
Definition count_positive_scan (w : work_item) (buff : list float)
    (result : list Z) : outcome (list Z) :=
  let m := as_int (local_size w) in
  let k := as_int (group_id w) in
  let t := as_int (local_id w) in
  if t =? 0 then
    cnt ← count_loop (Z.to_nat m) buff 0 0;
    wr result k cnt
  else Ok result.

End Kernel.

(** ** NDRange execution *)

(** The work-items of work-group [k], in lane order. *)
Definition lanes (global local k : nat) : list work_item :=
  map (fun t => WorkItem (k * local + t) global t local k) (seq 0 local).

(** A kernel without barrier: the work-items of a group run one after the
    other. *)
Definition run_group_filter (input : list float) (global local k : nat)
    (bufs : list Z * list float) : outcome (list Z * list float) :=
  for_each (fun w => Kernel.filter w input) (lanes global local k) bufs.

(** [count_positive] on one group. [garbage k] is the content of the local
    array [buff] of group [k] when the group starts (local memory is not
    initialised). All lanes run up to the barrier, then all lanes run the
    rest. *)
Definition run_group_count_positive (a : list float)
    (garbage : nat -> nat -> float)
    (global local k : nat) (result : list Z) : outcome (list Z) :=
  buff ← for_each (fun w => Kernel.count_positive_load w a)
                  (lanes global local k) (uninit (garbage k) Kernel.BUFFSIZE);
  for_each (fun w => Kernel.count_positive_scan w buff)
           (lanes global local k) result.

(** [queue.enqueueNDRangeKernel(kernel, NullRange, NDRange(global),
    NDRange(local))] under OpenCL 1.2 (CL_HPP_TARGET_OPENCL_VERSION 120):
    the global size must be positive and a multiple of the local size (the
    device is taken to accept groups of the local size); the
    [global / local] groups then run, here in index order. No two groups of
    the kernels of this program touch the same cell with different values,
    so the order does not show in the outcome. *)
Definition enqueueNDRangeKernel {S : Type}
    (run_group : nat -> nat -> nat -> S -> outcome S)
    (global local : nat) (s : S) : outcome S :=
  if (global =? 0)%nat then Err CL_INVALID_GLOBAL_WORK_SIZE
  else if (local =? 0)%nat || negb (global mod local =? 0)%nat
       then Err CL_INVALID_WORK_GROUP_SIZE
  else for_each (fun k => run_group global local k) (seq 0 (global / local)) s.

(** ** The host side *)

Module Reference.

(** Modelled from the spec: the header filter.hh, which defines the host
    function [filter(input, result, pred)] called at line 73, is not part of
    the sources. The spec (section 4.4, Sequential Reference) describes it as a
    single pass over the input that keeps, in order, the elements satisfying
    the predicate. The pass appends each kept element to the output. *)
Definition sequential_filter {A : Type} (input : list A) (pred : A -> bool)
  : list A :=
  fold_left (fun out x => if pred x then out ++ [x] else out) input [].

End Reference.

(** The kernels of the program [src]. *)
Inductive kernel_name : Type := K_filter | K_count_positive.

(** The variables of [profile_filter], the two device buffers, and the list
    of kernels enqueued so far. *)
Record host : Type := Host {
  input : list float;
  bins : list Z;
  result : list float;
  result_gpu : list float;
  d_input : list float;
  d_bins : list Z;
  enqueued : list kernel_name
}.

Definition local_sz : nat := 256.

(** [std::vector<int> bins(n / local_sz)]: the size, by [int] division. *)
Definition bins_size (n : nat) : nat :=
  Z.to_nat (Z.quot (Z.of_nat n) (Z.of_nat local_sz)).

(** Lines 65-70. [rnd] stands for the generator behind
    [random_std_vector<float>(n)], which returns [n] floats. [reserve]
    changes the capacity of a vector, not its content. *)
Definition init (n : nat) (rnd : nat -> float) : host :=
  {| input := map rnd (seq 0 n);
     bins := replicate (bins_size n) 0;
     result := [];
     result_gpu := [];
     d_input := [];
     d_bins := [];
     enqueued := [] |}.

(** Line 73: [filter(input, result, [] (float x) { return x > 0; })]. *)
Definition call_filter (h : host) : outcome host :=
  Ok {| input := input h;
        bins := bins h;
        result := Reference.sequential_filter (input h) positive;
        result_gpu := result_gpu h;
        d_input := d_input h;
        d_bins := d_bins h;
        enqueued := enqueued h |}.

(** [cl::Buffer] with the given content: a buffer of size 0 is refused. *)
Definition Buffer {A : Type} (content : list A) : outcome (list A) :=
  if (length content =? 0)%nat then Err CL_INVALID_BUFFER_SIZE else Ok content.

(** Line 75: [cl::Buffer d_input(opencl.queue, begin(input), end(input), false)]. *)
Definition create_d_input (h : host) : outcome host :=
  d ← Buffer (input h);
  Ok {| input := input h;
        bins := bins h;
        result := result h;
        result_gpu := result_gpu h;
        d_input := d;
        d_bins := d_bins h;
        enqueued := enqueued h |}.

(** Line 76: [cl::Buffer d_bins(opencl.context, CL_MEM_READ_WRITE,
    bins.size()*sizeof(int))]; its content is whatever the device memory
    holds, [g]. *)
Definition create_d_bins (g : nat -> Z) (h : host) : outcome host :=
  d ← Buffer (uninit g (length (bins h)));
  Ok {| input := input h;
        bins := bins h;
        result := result h;
        result_gpu := result_gpu h;
        d_input := d_input h;
        d_bins := d;
        enqueued := enqueued h |}.

(** Lines 78-82: the arguments of [cnt_pos_kernel] are [d_input] and
    [d_bins]; it is enqueued on [NDRange(n)] with groups of [local_sz]. *)
Definition enqueue_count_positive (n : nat) (garbage : nat -> nat -> float)
    (h : host) : outcome host :=
  d ← enqueueNDRangeKernel (run_group_count_positive (d_input h) garbage)
                           n local_sz (d_bins h);
  Ok {| input := input h;
        bins := bins h;
        result := result h;
        result_gpu := result_gpu h;
        d_input := d_input h;
        d_bins := d;
        enqueued := enqueued h ++ [K_count_positive] |}.

(** Line 85: [cl::copy(opencl.queue, d_bins, std::begin(bins), std::end(bins))]. *)
Definition copy_bins (h : host) : outcome host :=
  Ok {| input := input h;
        bins := take (length (bins h)) (d_bins h);
        result := result h;
        result_gpu := result_gpu h;
        d_input := d_input h;
        d_bins := d_bins h;
        enqueued := enqueued h |}.

(** The statements of [profile_filter] between the declarations and the call
    [verify_vector(result, result_gpu)], in program order. *)
Definition statements (n : nat) (g : nat -> Z) (garbage : nat -> nat -> float)
  : list (host -> outcome host) :=
  [ call_filter;
    create_d_input;
    create_d_bins g;
    enqueue_count_positive n garbage;
    copy_bins ].

(** The states the host goes through: the state after the declarations, then
    the state after each statement, until one throws. *)
Fixpoint states (stmts : list (host -> outcome host)) (h : host) : list host :=
  h :: match stmts with
       | [] => []
       | stmt :: rest =>
           match stmt h with
           | Ok h' => states rest h'
           | Err _ => []
           end
       end.

Definition profile_filter_states (n : nat) (rnd : nat -> float) (g : nat -> Z)
    (garbage : nat -> nat -> float) : list host :=
  states (statements n g garbage) (init n rnd).

(** [profile_filter(n, opencl)] up to the call of [verify_vector]: the state
    in which [verify_vector(result, result_gpu)] is called, or the error
    thrown before. *)
Definition profile_filter (n : nat) (rnd : nat -> float) (g : nat -> Z)
    (garbage : nat -> nat -> float) : outcome host :=
  for_each (fun stmt h => stmt h) (statements n g garbage) (init n rnd).

(** The [filter] kernel enqueued on [NDRange(global)] with groups of [local]:
    the content of [res_size] and [result] once all work-items have run. *)
Definition device_filter (input : list float) (global local : nat)
    (res_size : list Z) (result : list float)
  : outcome (list Z * list float) :=
  enqueueNDRangeKernel (run_group_filter input) global local (res_size, result).

(** ** Specification-side notions *)

(** Block [k] of the input for block size [L]: indices [k*L .. k*L+L-1]. *)
Definition block {A : Type} (a : list A) (L k : nat) : list A :=
  take L (drop (k * L) a).

(** The number of elements of [xs] strictly greater than 0. *)
Definition count_gt0 (xs : list float) : Z :=
  Z.of_nat (length (List.filter positive xs)).

(** The Block Count Table of [a] for block size [L]: one count per whole
    block. *)
Definition block_counts (a : list float) (L : nat) : list Z :=
  map (fun k => count_gt0 (block a L k)) (seq 0 (length a / L)).

(** ceil(N / L) *)
Definition ceil_div (N L : nat) : nat := ((N + L - 1) / L)%nat.

(** ** Inputs of the scenarios *)

(** The block-boundary scenario of the spec, for block size 2. *)
Definition boundary_input : list float := map of_int [1; -1; 2; -2; 3; -3].

(** The first concrete scenario of the spec. *)
Definition mixed_input : list float := map of_int [-1; 2; -3; 4; 5; -6].

(** Three elements: one whole block of size 2 and a short one. *)
Definition short_input : list float := map of_int [1; 2; 3].

(** A generator that returns 1.0f everywhere, and local memory full of NaN. *)
Definition ones : nat -> float := fun _ => of_int 1.
Definition nan_garbage : nat -> nat -> float := fun _ _ => S754_nan.

(** ** Schedules *)

(** The groups of a dispatch, run in the order [order] instead of the index
    order of [enqueueNDRangeKernel]: OpenCL does not fix the order in which
    work-groups run. *)
Definition run_groups_in_order {S : Type}
    (run_group : nat -> nat -> nat -> S -> outcome S)
    (global local : nat) (order : list nat) (s : S) : outcome S :=
  for_each (fun k => run_group global local k) order s.

(** [count_positive] on group [k], the lanes reaching the barrier in the
    order [before] and leaving it in the order [after]. *)
Definition run_group_count_positive_scheduled (a : list float)
    (garbage : nat -> nat -> float) (before after : list work_item)
    (k : nat) (result : list Z) : outcome (list Z) :=
  buff ← for_each (fun w => Kernel.count_positive_load w a)
                  before (uninit (garbage k) Kernel.BUFFSIZE);
  for_each (fun w => Kernel.count_positive_scan w buff) after result.

(** The sum of a table of counts. *)
Definition sum_Z (l : list Z) : Z := fold_right Z.add 0 l.

(** ** The report *)

Module Report.

(** [n] spaces. *)
Fixpoint spaces (n : nat) : string :=
  match n with
  | O => EmptyString
  | S n' => String " "%char (spaces n')
  end.

(** [std::cout << std::setw(w) << s]: the text is written right-justified in
    a field of [w] characters filled with spaces; a longer text is written
    whole. The width applies to this one output only. *)
Definition setw (w : nat) (s : string) : string :=
  (spaces (w - String.length s) ++ s)%string.

(** ['\n'] *)
Definition newline : string := String (ascii_of_nat 10) EmptyString.

(** [print_column_names()]: what it writes to [std::cout]. *)
Definition print_column_names : string :=
  (setw 19 "function" ++ setw 20 "OpenMP" ++ setw 20 "OpenCL total"
   ++ setw 20 "OpenCL copy-in" ++ setw 20 "OpenCL kernel"
   ++ setw 20 "OpenCL copy-out" ++ newline)%string.

(** [tmp << count << "us"], [count] being the integer
    [duration_cast<microseconds>(dt[i]).count()], written in decimal. *)
Definition us_text (count : Z) : string :=
  (NilZero.string_of_int (Z.to_int count) ++ "us")%string.

(** The loop [for (size_t i=0; i<5; ++i)] of [print], from index [i], with
    [todo] iterations left. [us i] is the number of microseconds of [dt[i]]. *)
Fixpoint print_columns (todo : nat) (us : nat -> Z) (i : nat) : string :=
  match todo with
  | O => EmptyString
  | S todo' => (setw 20 (us_text (us i)) ++ print_columns todo' us (S i))%string
  end.

(** [print(name, dt)]: what it writes to [std::cout]. *)
Definition print (name : string) (us : nat -> Z) : string :=
  (setw 19 name ++ print_columns 5 us 0 ++ newline)%string.

End Report.

(** [opencl_main(opencl)]: the header written to [std::cout], then the call
    [profile_filter(1024*1024, opencl)]. *)
Definition opencl_main (rnd : nat -> float) (g : nat -> Z)
    (garbage : nat -> nat -> float) : string * outcome host :=
  (Report.print_column_names, profile_filter (1024 * 1024) rnd g garbage).

(** * Lemmas *)

(** ** Arithmetic and array lemmas *)

Lemma to_int_small (z : Z) : - 2 ^ 31 <= z <= INT_MAX -> to_int z = z.
Proof.
  unfold to_int, INT_MAX. intros H.
  rewrite Z.mod_small; lia.
Qed.

Lemma as_int_small (x : nat) : Z.of_nat x <= INT_MAX -> as_int x = Z.of_nat x.
Proof. intros H. unfold as_int. apply to_int_small. unfold INT_MAX in *. lia. Qed.

Lemma rd_Some {A : Type} (buf : list A) (i : nat) (x : A) :
  buf !! i = Some x -> rd buf (Z.of_nat i) = Ok x.
Proof.
  intros H. unfold rd.
  destruct (Z.leb_spec 0 (Z.of_nat i)); [|lia].
  now rewrite Nat2Z.id, H.
Qed.

Lemma rd_None {A : Type} (buf : list A) (i : nat) :
  (length buf <= i)%nat -> rd buf (Z.of_nat i) = Err Fault.
Proof.
  intros H. unfold rd.
  destruct (Z.leb_spec 0 (Z.of_nat i)); [|lia].
  rewrite Nat2Z.id. now rewrite (lookup_ge_None_2 buf i) by lia.
Qed.

Lemma wr_lt {A : Type} (buf : list A) (i : nat) (x : A) :
  (i < length buf)%nat -> wr buf (Z.of_nat i) x = Ok (<[i := x]> buf).
Proof.
  intros H. unfold wr.
  destruct (Z.leb_spec 0 (Z.of_nat i)); [|lia].
  destruct (Z.ltb_spec (Z.of_nat i) (Z.of_nat (length buf))); [|lia].
  simpl. now rewrite Nat2Z.id.
Qed.

Lemma for_each_map {X Y S : Type} (f : X -> Y) (body : Y -> S -> outcome S)
    (xs : list X) (s : S) :
  for_each body (map f xs) s = for_each (fun x => body (f x)) xs s.
Proof.
  revert s. induction xs as [|x xs IH]; intros s; simpl; [reflexivity|].
  destruct (body (f x) s); simpl; [apply IH | reflexivity].
Qed.

(** A loop over [seq s len] that keeps an invariant indexed by the loop
    counter runs to its end and establishes the invariant there. *)
Lemma for_each_seq_inv {S : Type} (body : nat -> S -> outcome S)
    (P : nat -> S -> Prop) (len s : nat) (st : S) :
  P s st ->
  (forall i st0, (s <= i < s + len)%nat -> P i st0 ->
     exists st1, body i st0 = Ok st1 /\ P (Datatypes.S i) st1) ->
  exists st', for_each body (seq s len) st = Ok st' /\ P (s + len)%nat st'.
Proof.
  revert s st. induction len as [|len IH]; intros s st H0 Hstep; simpl.
  - exists st. rewrite Nat.add_0_r. auto.
  - destruct (Hstep s st ltac:(lia) H0) as (st1 & E1 & P1).
    rewrite E1. simpl.
    destruct (IH (Datatypes.S s) st1 P1) as (st' & E' & P').
    + intros i st0 Hi. apply Hstep. lia.
    + exists st'. split; [exact E'|]. now replace (s + Datatypes.S len)%nat with (Datatypes.S s + len)%nat by lia.
Qed.

(** ** The count loop *)

Lemma count_gt0_cons (x : float) (xs : list float) :
  count_gt0 (x :: xs) = (if positive x then 1 else 0) + count_gt0 xs.
Proof.
  unfold count_gt0. simpl. destruct (positive x); simpl length; lia.
Qed.

Lemma count_gt0_bounds (xs : list float) :
  0 <= count_gt0 xs <= Z.of_nat (length xs).
Proof.
  unfold count_gt0. pose proof (List.filter_length_le positive xs). lia.
Qed.

Lemma count_loop_correct (iters : nat) (buff : list float) (j : nat) (cnt : Z) :
  (j + iters <= length buff)%nat ->
  0 <= cnt -> cnt + Z.of_nat iters <= INT_MAX ->
  Kernel.count_loop iters buff (Z.of_nat j) cnt
  = Ok (cnt + count_gt0 (take iters (drop j buff))).
Proof.
  revert j cnt. induction iters as [|iters IH]; intros j cnt Hlen Hc Hmax.
  - simpl. rewrite take_0. unfold count_gt0. simpl. f_equal; lia.
  - destruct (lookup_lt_is_Some_2 buff j ltac:(lia)) as [x Hx].
    cbn [Kernel.count_loop]. rewrite (rd_Some _ _ _ Hx). simpl.
    replace (Z.of_nat j + 1) with (Z.of_nat (Datatypes.S j)) by lia.
    rewrite (drop_S _ _ _ Hx). rewrite firstn_cons, count_gt0_cons.
    destruct (positive x).
    + rewrite to_int_small by (unfold INT_MAX in *; lia).
      rewrite IH by lia. f_equal; lia.
    + rewrite IH by lia. f_equal; lia.
Qed.

(** ** Lanes of [count_positive] *)

(** No [int] operation of the index computation wraps as long as the global
    index of the lane fits an [int]. *)
Lemma lane_load_index (global m k t : nat) :
  (t < m)%nat -> Z.of_nat (k * m + t) <= INT_MAX ->
  Kernel.load_index (WorkItem (k * m + t) global t m k) = Z.of_nat (k * m + t).
Proof.
  intros Ht Hmax. unfold Kernel.load_index. simpl.
  assert (k <= k * m)%nat by nia.
  rewrite (as_int_small k), (as_int_small t) by lia.
  destruct k as [|k'].
  - rewrite Z.mul_0_l. change (to_int 0) with 0.
    rewrite to_int_small by (unfold INT_MAX in *; lia). lia.
  - assert (m <= Datatypes.S k' * m)%nat by nia.
    rewrite (as_int_small m) by lia.
    rewrite (to_int_small (Z.of_nat (Datatypes.S k') * Z.of_nat m))
      by (unfold INT_MAX in *; nia).
    rewrite to_int_small by (unfold INT_MAX in *; nia). lia.
Qed.

(** ** One work-group of [count_positive] *)

Section CountPositiveGroup.

Variable a : list float.
Variable garbage : nat -> nat -> float.
Variables global m k : nat.

Hypothesis m_pos : (0 < m)%nat.
Hypothesis m_fits : (m <= Kernel.BUFFSIZE)%nat.
Hypothesis block_inside : (k * m + m <= length a)%nat.
Hypothesis a_int : Z.of_nat (length a) <= INT_MAX.

(** Before the barrier: the lanes fill the first [m] cells of [buff] with the
    block and leave the other cells as they were. *)
Lemma loads_fill_block :
  exists buff,
    for_each (fun w => Kernel.count_positive_load w a)
             (lanes global m k) (uninit (garbage k) Kernel.BUFFSIZE) = Ok buff
    /\ length buff = Kernel.BUFFSIZE
    /\ take m buff = block a m k.
Proof.
  unfold lanes. rewrite for_each_map.
  destruct (for_each_seq_inv
    (fun t => Kernel.count_positive_load (WorkItem (k * m + t) global t m k) a)
    (fun i buff => length buff = Kernel.BUFFSIZE
                   /\ take i buff = take i (drop (k * m) a))
    m 0%nat (uninit (garbage k) Kernel.BUFFSIZE)) as (buff & E & Hl & Ht).
  - split; [unfold uninit; now rewrite length_map, length_seq|].
    now rewrite !take_0.
  - intros t buff [_ Ht] [Hl Hpre]. simpl in Ht.
    destruct (lookup_lt_is_Some_2 a (k * m + t) ltac:(lia)) as [x Hx].
    unfold Kernel.count_positive_load.
    rewrite lane_load_index by lia. rewrite (rd_Some _ _ _ Hx). simpl.
    rewrite as_int_small by (unfold Kernel.BUFFSIZE, INT_MAX in *; lia).
    rewrite wr_lt by lia.
    eexists; split; [reflexivity|]. split; [now rewrite length_insert|].
    rewrite (take_S_r (drop (k * m) a) t x) by now rewrite lookup_drop.
    rewrite (take_S_r (<[t:=x]> buff) t x) by (apply list_lookup_insert_eq; lia).
    rewrite take_insert. destruct (decide (t < t)%nat); [lia|]. now rewrite Hpre.
  - exists buff. simpl in Ht. auto.
Qed.

Variable result : list Z.
Hypothesis k_in : (k < length result)%nat.

Lemma scan_lane_0 (buff : list float) :
  length buff = Kernel.BUFFSIZE ->
  Kernel.count_positive_scan (WorkItem (k * m + 0) global 0 m k) buff result
  = Ok (<[k := count_gt0 (take m buff)]> result).
Proof.
  intros Hl. assert (k <= k * m)%nat by nia.
  unfold Kernel.count_positive_scan. simpl.
  rewrite !as_int_small by (unfold Kernel.BUFFSIZE, INT_MAX in *; lia).
  change (Z.of_nat 0 =? 0) with true. cbv iota.
  rewrite Nat2Z.id.
  pose proof (count_loop_correct m buff 0 0) as Hloop.
  change (Z.of_nat 0) with 0 in Hloop. rewrite drop_0 in Hloop.
  rewrite Hloop by (unfold Kernel.BUFFSIZE, INT_MAX in *; lia).
  simpl. now rewrite wr_lt by lia.
Qed.

Lemma scan_lane_other (t : nat) (buff : list float) (st : list Z) :
  (0 < t < m)%nat ->
  Kernel.count_positive_scan (WorkItem (k * m + t) global t m k) buff st = Ok st.
Proof.
  intros Ht. unfold Kernel.count_positive_scan. simpl.
  rewrite (as_int_small t) by (unfold Kernel.BUFFSIZE, INT_MAX in *; lia).
  now destruct (Z.eqb_spec (Z.of_nat t) 0); [lia|].
Qed.

(** After the barrier: lane 0 counts the first [m] cells of [buff] and stores
    the count in [result[k]]; the other lanes do nothing. *)
Lemma scans_write_count (buff : list float) :
  length buff = Kernel.BUFFSIZE ->
  for_each (fun w => Kernel.count_positive_scan w buff) (lanes global m k) result
  = Ok (<[k := count_gt0 (take m buff)]> result).
Proof.
  intros Hl. unfold lanes. rewrite for_each_map.
  assert (Hs : seq 0 m = 0%nat :: seq 1 (m - 1)).
  { clear -m_pos. destruct m; [lia|]. simpl. now rewrite Nat.sub_0_r. }
  rewrite Hs.
  cbn [for_each]. rewrite scan_lane_0 by exact Hl. simpl.
  destruct (for_each_seq_inv
    (fun t => Kernel.count_positive_scan (WorkItem (k * m + t) global t m k) buff)
    (fun _ st => st = <[k := count_gt0 (take m buff)]> result)
    (m - 1)%nat 1%nat (<[k := count_gt0 (take m buff)]> result) eq_refl)
    as (st & E & ->).
  - intros t st0 Ht ->. rewrite scan_lane_other by lia. eauto.
  - exact E.
Qed.

Lemma run_group_count_positive_correct :
  run_group_count_positive a garbage global m k result
  = Ok (<[k := count_gt0 (block a m k)]> result).
Proof.
  unfold run_group_count_positive.
  destruct loads_fill_block as (buff & E & Hl & Hb).
  rewrite E. simpl. rewrite scans_write_count by exact Hl. now rewrite Hb.
Qed.

End CountPositiveGroup.

(** All the groups of a dispatch of [count_positive] over an input made of
    [B] whole blocks. *)
Lemma count_positive_groups (a : list float) (garbage : nat -> nat -> float)
    (global m B : nat) (result : list Z) :
  (0 < m <= Kernel.BUFFSIZE)%nat ->
  length a = (B * m)%nat ->
  Z.of_nat (length a) <= INT_MAX ->
  (B <= length result)%nat ->
  exists result',
    for_each (fun k => run_group_count_positive a garbage global m k)
             (seq 0 B) result = Ok result'
    /\ length result' = length result
    /\ forall k, result' !! k =
         if decide (k < B)%nat then Some (count_gt0 (block a m k))
         else result !! k.
Proof.
  intros Hm Ha Hint HB.
  destruct (for_each_seq_inv
    (fun k => run_group_count_positive a garbage global m k)
    (fun i st => length st = length result
                 /\ forall k, st !! k =
                      if decide (k < i)%nat then Some (count_gt0 (block a m k))
                      else result !! k)
    B 0%nat result) as (st & E & Hl & Hk).
  - split; [reflexivity|]. intros k. destruct (decide (k < 0)%nat); [lia|reflexivity].
  - intros i st0 [_ Hi] [Hl Hk]. simpl in Hi.
    rewrite run_group_count_positive_correct by (try lia; nia).
    eexists; split; [reflexivity|]. split; [now rewrite length_insert|].
    intros k. destruct (decide (k = i)) as [->|Hne].
    + rewrite list_lookup_insert_eq by lia.
      destruct (decide (i < Datatypes.S i)%nat); [reflexivity|lia].
    + rewrite list_lookup_insert_ne by congruence. rewrite Hk.
      destruct (decide (k < i)%nat), (decide (k < Datatypes.S i)%nat);
        try reflexivity; lia.
  - exists st. simpl in Hk. auto.
Qed.


(** ** NDRange dispatch of [count_positive] *)

Lemma enqueue_whole_blocks {S : Type}
    (run_group : nat -> nat -> nat -> S -> outcome S) (m B : nat) (s : S) :
  (0 < m)%nat -> (0 < B)%nat ->
  enqueueNDRangeKernel run_group (B * m) m s
  = for_each (fun k => run_group (B * m)%nat m k) (seq 0 B) s.
Proof.
  intros Hm HB. unfold enqueueNDRangeKernel.
  destruct (Nat.eqb_spec (B * m) 0); [nia|].
  destruct (Nat.eqb_spec m 0); [lia|].
  rewrite Nat.Div0.mod_mul, Nat.div_mul by lia. reflexivity.
Qed.

(** The table of the per-block counts of [a], [B] blocks of size [L]. *)
Lemma counts_table (a : list float) (L B : nat) (old tab : list Z) :
  length tab = B ->
  (forall k, tab !! k =
     if decide (k < B)%nat then Some (count_gt0 (block a L k)) else old !! k) ->
  tab = map (fun k => count_gt0 (block a L k)) (seq 0 B).
Proof.
  intros Hl Hk. apply list_eq. intros k. rewrite Hk.
  rewrite list_lookup_fmap. destruct (decide (k < B)%nat) as [Hlt|Hge].
  - now rewrite (lookup_seq_lt _ _ _ Hlt).
  - rewrite lookup_seq_ge by lia. simpl.
    specialize (Hk k). destruct (decide (k < B)%nat); [lia|].
    rewrite <- Hk. apply lookup_ge_None_2. lia.
Qed.

(** ** The sequential reference *)

Lemma filter_pass_acc {A : Type} (pred : A -> bool) (input out : list A) :
  fold_left (fun out x => if pred x then out ++ [x] else out) input out
  = out ++ List.filter pred input.
Proof.
  revert out. induction input as [|x input IH]; intros out; simpl.
  - now rewrite app_nil_r.
  - rewrite IH. destruct (pred x); [|reflexivity].
    now rewrite <- app_assoc.
Qed.

Lemma sequential_filter_eq {A : Type} (input : list A) (pred : A -> bool) :
  Reference.sequential_filter input pred = List.filter pred input.
Proof. unfold Reference.sequential_filter. now rewrite filter_pass_acc. Qed.

Lemma filter_kept_again {A : Type} (pred : A -> bool) (l : list A) :
  List.filter pred (List.filter pred l) = List.filter pred l.
Proof.
  induction l as [|x l IH]; simpl; [reflexivity|].
  destruct (pred x) eqn:E; simpl; [rewrite E; now f_equal | exact IH].
Qed.

Lemma sequential_filter_nonempty (rnd : nat -> float) (n i : nat) :
  (i < n)%nat -> positive (rnd i) = true ->
  Reference.sequential_filter (map rnd (seq 0 n)) positive <> [].
Proof.
  intros Hi Hp E. rewrite sequential_filter_eq in E.
  assert (Hin : In (rnd i) (List.filter positive (map rnd (seq 0 n)))).
  { apply List.filter_In. split; [|exact Hp].
    apply List.in_map. apply List.in_seq. lia. }
  rewrite E in Hin. exact Hin.
Qed.

(** ** The [filter] kernel *)

Section FilterKernel.

Variable input : list float.
Variables global local : nat.
Variable res_size : list Z.
Variable result : list float.

Hypothesis res_size_cell : (0 < length res_size)%nat.

Lemma filter_item_0 (t m k : nat) :
  Kernel.filter (WorkItem 0 global t m k) input (res_size, result)
  = Ok (<[0%nat := as_int global]> res_size, result).
Proof.
  unfold Kernel.filter. simpl. change (as_int 0 =? 0) with true. cbv iota.
  change 0 with (Z.of_nat 0). now rewrite wr_lt by lia.
Qed.

Lemma filter_item_later (w : work_item) :
  global_size w = global ->
  Kernel.filter w input (<[0%nat := as_int global]> res_size, result)
  = Ok (<[0%nat := as_int global]> res_size, result).
Proof.
  intros Hg. unfold Kernel.filter. rewrite Hg.
  destruct (as_int (global_id w) =? 0); [|reflexivity].
  change 0 with (Z.of_nat 0). rewrite wr_lt by (rewrite length_insert; lia).
  simpl. now rewrite list_insert_insert_eq.
Qed.

Lemma filter_group_later (k : nat) :
  run_group_filter input global local k
                   (<[0%nat := as_int global]> res_size, result)
  = Ok (<[0%nat := as_int global]> res_size, result).
Proof.
  unfold run_group_filter, lanes. rewrite for_each_map.
  destruct (for_each_seq_inv
    (fun t => Kernel.filter (WorkItem (k * local + t) global t local k) input)
    (fun _ st => st = (<[0%nat := as_int global]> res_size, result))
    local 0%nat (<[0%nat := as_int global]> res_size, result) eq_refl)
    as (st & E & ->); [|exact E].
  intros t st0 _ ->. rewrite filter_item_later by reflexivity. eauto.
Qed.

Lemma filter_group_0 :
  (0 < local)%nat ->
  run_group_filter input global local 0 (res_size, result)
  = Ok (<[0%nat := as_int global]> res_size, result).
Proof.
  intros Hl. unfold run_group_filter, lanes. rewrite for_each_map.
  assert (Hs : seq 0 local = 0%nat :: seq 1 (local - 1)).
  { destruct local; [lia|]. simpl. now rewrite Nat.sub_0_r. }
  rewrite Hs. cbn [for_each]. change (0 * local + 0)%nat with 0%nat.
  rewrite filter_item_0. simpl.
  destruct (for_each_seq_inv
    (fun t => Kernel.filter (WorkItem (0 * local + t) global t local 0) input)
    (fun _ st => st = (<[0%nat := as_int global]> res_size, result))
    (local - 1)%nat 1%nat (<[0%nat := as_int global]> res_size, result)
    eq_refl) as (st & E & ->); [|exact E].
  intros t st0 _ ->. rewrite filter_item_later by reflexivity. eauto.
Qed.

Lemma device_filter_run :
  (0 < global)%nat -> (0 < local)%nat -> (global mod local = 0)%nat ->
  device_filter input global local res_size result
  = Ok (<[0%nat := as_int global]> res_size, result).
Proof.
  intros Hg Hl Hdiv. unfold device_filter, enqueueNDRangeKernel.
  destruct (Nat.eqb_spec global 0); [lia|].
  destruct (Nat.eqb_spec local 0); [lia|].
  rewrite Hdiv. simpl.
  assert (Hgroups : (0 < global / local)%nat).
  { apply Nat.div_str_pos. split; [lia|].
    pose proof (Nat.div_mod_eq global local) as Hc. rewrite Hdiv in Hc.
    destruct (global / local)%nat; lia. }
  assert (Hs : seq 0 (global / local) = 0%nat :: seq 1 (global / local - 1)).
  { destruct (global / local)%nat; [lia|]. simpl. now rewrite Nat.sub_0_r. }
  rewrite Hs. cbn [for_each]. rewrite filter_group_0 by exact Hl. simpl.
  destruct (for_each_seq_inv
    (fun k => run_group_filter input global local k)
    (fun _ st => st = (<[0%nat := as_int global]> res_size, result))
    (global / local - 1)%nat 1%nat
    (<[0%nat := as_int global]> res_size, result) eq_refl)
    as (st & E & ->); [|exact E].
  intros k st0 _ ->. rewrite filter_group_later. eauto.
Qed.

End FilterKernel.

(** ** The host routine *)

Lemma bins_size_blocks (B : nat) : bins_size (B * local_sz) = B.
Proof.
  unfold bins_size. rewrite Z.quot_div_nonneg by (unfold local_sz; lia).
  rewrite Nat2Z.inj_mul, Z.div_mul by (unfold local_sz; lia).
  apply Nat2Z.id.
Qed.

Lemma bins_size_div (n : nat) : bins_size n = (n / local_sz)%nat.
Proof.
  unfold bins_size. rewrite Z.quot_div_nonneg by (unfold local_sz; lia).
  rewrite <- Nat2Z.inj_div. apply Nat2Z.id.
Qed.

Lemma Buffer_nonempty {A : Type} (content : list A) :
  (0 < length content)%nat -> Buffer content = Ok content.
Proof.
  intros H. unfold Buffer. now destruct (Nat.eqb_spec (length content) 0); [lia|].
Qed.

Lemma length_uninit {A : Type} (g : nat -> A) (len : nat) :
  length (uninit g len) = len.
Proof. unfold uninit. now rewrite length_map, length_seq. Qed.

(** A run on [B > 0] whole blocks reaches [verify_vector] in this state. *)
Lemma profile_filter_runs (B n : nat) (rnd : nat -> float) (g : nat -> Z)
    (garbage : nat -> nat -> float) :
  (0 < B)%nat -> n = (B * local_sz)%nat -> Z.of_nat n <= INT_MAX ->
  profile_filter n rnd g garbage
  = Ok {| input := map rnd (seq 0 n);
          bins := block_counts (map rnd (seq 0 n)) local_sz;
          result := Reference.sequential_filter (map rnd (seq 0 n)) positive;
          result_gpu := [];
          d_input := map rnd (seq 0 n);
          d_bins := block_counts (map rnd (seq 0 n)) local_sz;
          enqueued := [K_count_positive] |}.
Proof.
  intros HB Hn Hmax.
  assert (Hlen : length (map rnd (seq 0 n)) = n)
    by now rewrite length_map, length_seq.
  unfold profile_filter, statements, init. cbn [for_each].
  unfold call_filter at 1. cbn [mbind outcome_bind input bins result result_gpu
    d_input d_bins enqueued].
  unfold create_d_input at 1. cbn [input bins result result_gpu d_input d_bins
    enqueued].
  rewrite Buffer_nonempty by (rewrite Hlen; unfold local_sz in *; lia).
  cbn [mbind outcome_bind].
  unfold create_d_bins at 1. cbn [input bins result result_gpu d_input d_bins
    enqueued].
  rewrite length_replicate, Hn, bins_size_blocks, <- Hn.
  rewrite Buffer_nonempty by (rewrite length_uninit; lia).
  cbn [mbind outcome_bind].
  unfold enqueue_count_positive at 1. cbn [input bins result result_gpu d_input
    d_bins enqueued].
  rewrite Hn at 2. rewrite enqueue_whole_blocks by (unfold local_sz; lia).
  destruct (count_positive_groups (map rnd (seq 0 n)) garbage
              (B * local_sz) local_sz B (uninit g B))
    as (tab & E & Hl & Hk).
  { unfold local_sz, Kernel.BUFFSIZE. lia. }
  { now rewrite Hlen. }
  { now rewrite Hlen. }
  { now rewrite length_uninit. }
  rewrite E. cbn [mbind outcome_bind].
  unfold copy_bins. cbn [input bins result result_gpu d_input d_bins enqueued].
  rewrite length_uninit in Hl.
  assert (Htab : tab = block_counts (map rnd (seq 0 n)) local_sz).
  { unfold block_counts. rewrite Hlen.
    replace (n / local_sz)%nat with B
      by (rewrite Hn, Nat.div_mul; unfold local_sz; lia).
    exact (counts_table _ _ _ _ _ Hl Hk). }
  rewrite length_replicate, firstn_all2 by lia. rewrite <- Htab. reflexivity.
Qed.

(** ** Invariants of the host states *)

Lemma for_each_preserves {X S : Type} (Q : S -> Prop)
    (body : X -> S -> outcome S) (xs : list X) :
  (forall x s s', Q s -> body x s = Ok s' -> Q s') ->
  forall s s', Q s -> for_each body xs s = Ok s' -> Q s'.
Proof.
  intros Hbody. induction xs as [|x xs IH]; intros s s' Hs E; simpl in E.
  - now inversion E; subst.
  - destruct (body x s) as [s1|e] eqn:E1; simpl in E; [|discriminate].
    eapply IH; [|exact E]. eapply Hbody; eauto.
Qed.

Lemma wr_length {A : Type} (buf buf' : list A) (i : Z) (x : A) :
  wr buf i x = Ok buf' -> length buf' = length buf.
Proof.
  unfold wr. destruct (_ && _); [|discriminate].
  intros E. inversion E. apply length_insert.
Qed.

Lemma run_group_count_positive_length (a : list float)
    (garbage : nat -> nat -> float) (global local k : nat)
    (res res' : list Z) :
  run_group_count_positive a garbage global local k res = Ok res' ->
  length res' = length res.
Proof.
  unfold run_group_count_positive.
  destruct (for_each _ _ (uninit _ _)) as [buff|e]; simpl; [|discriminate].
  apply (for_each_preserves (fun r => length r = length res)); [|reflexivity].
  intros w s s' Hs. unfold Kernel.count_positive_scan.
  destruct (_ =? _).
  - destruct (Kernel.count_loop _ _ _ _) as [cnt|e]; simpl; [|discriminate].
    intros E. apply wr_length in E. congruence.
  - intros E. inversion E. congruence.
Qed.

Lemma enqueue_count_positive_length (a : list float)
    (garbage : nat -> nat -> float) (global local : nat) (res res' : list Z) :
  enqueueNDRangeKernel (run_group_count_positive a garbage) global local res
  = Ok res' ->
  length res' = length res.
Proof.
  unfold enqueueNDRangeKernel.
  destruct (_ =? _)%nat; [discriminate|].
  destruct (_ || _); [discriminate|].
  apply (for_each_preserves (fun r => length r = length res)); [|reflexivity].
  intros k s s' Hs E. apply run_group_count_positive_length in E. congruence.
Qed.

(** An invariant that may depend on the position in the program holds in
    every state the host goes through. *)
Lemma states_invariant (Inv : nat -> host -> Prop)
    (stmts : list (host -> outcome host)) :
  forall (i : nat) (h : host),
    Inv i h ->
    (forall j stmt h0 h1, stmts !! j = Some stmt -> Inv (i + j)%nat h0 ->
       stmt h0 = Ok h1 -> Inv (i + Datatypes.S j)%nat h1) ->
    Forall (fun h' => exists j, Inv j h') (states stmts h).
Proof.
  induction stmts as [|stmt rest IH]; intros i h Hi Hstep; simpl.
  - constructor; eauto.
  - constructor; [eauto|].
    destruct (stmt h) as [h1|e] eqn:E; [|constructor].
    apply (IH (Datatypes.S i)).
    + specialize (Hstep 0%nat stmt h h1 eq_refl).
      rewrite Nat.add_0_r, Nat.add_1_r in Hstep. auto.
    + intros j stmt' h0 h2 Hj Hinv E'.
      specialize (Hstep (Datatypes.S j) stmt' h0 h2 Hj).
      rewrite !Nat.add_succ_r in Hstep. simpl. rewrite Nat.add_succ_r. auto.
Qed.

(** The state in which a run ends is one of the states it went through. *)
Lemma final_state_visited (stmts : list (host -> outcome host)) :
  forall h h', for_each (fun stmt s => stmt s) stmts h = Ok h' ->
               In h' (states stmts h).
Proof.
  induction stmts as [|stmt rest IH]; intros h h' E; simpl in *.
  - inversion E. now left.
  - destruct (stmt h) as [h1|e]; simpl in E; [|discriminate].
    right. now apply IH.
Qed.

Lemma statement_keeps_result_gpu (n : nat) (g : nat -> Z)
    (garbage : nat -> nat -> float) (j : nat) (stmt : host -> outcome host)
    (h0 h1 : host) :
  statements n g garbage !! j = Some stmt ->
  stmt h0 = Ok h1 -> result_gpu h1 = result_gpu h0.
Proof.
  intros Hj E.
  destruct j as [|[|[|[|[|j]]]]]; simpl in Hj; inversion Hj; subst; clear Hj.
  - inversion E. reflexivity.
  - unfold create_d_input in E.
    destruct (Buffer _); simpl in E; inversion E. reflexivity.
  - unfold create_d_bins in E.
    destruct (Buffer _); simpl in E; inversion E. reflexivity.
  - unfold enqueue_count_positive in E.
    destruct (enqueueNDRangeKernel _ _ _ _); simpl in E; inversion E. reflexivity.
  - inversion E. reflexivity.
Qed.

Lemma statement_keeps_bins_size (n : nat) (g : nat -> Z)
    (garbage : nat -> nat -> float) (N : nat) (j : nat)
    (stmt : host -> outcome host) (h0 h1 : host) :
  statements n g garbage !! j = Some stmt ->
  length (bins h0) = N /\ ((3 <= j)%nat -> length (d_bins h0) = N) ->
  stmt h0 = Ok h1 ->
  length (bins h1) = N /\ ((3 <= Datatypes.S j)%nat -> length (d_bins h1) = N).
Proof.
  intros Hj [Hb Hd] E.
  destruct j as [|[|[|[|[|j]]]]]; simpl in Hj; inversion Hj; subst; clear Hj.
  - inversion E; simpl. split; [reflexivity|lia].
  - unfold create_d_input in E.
    destruct (Buffer _); simpl in E; inversion E; simpl. split; [reflexivity|lia].
  - unfold create_d_bins in E.
    destruct (Buffer _) as [d|e] eqn:EB; simpl in E; inversion E; simpl.
    split; [reflexivity|]. intros _. unfold Buffer in EB.
    destruct (_ =? _)%nat; inversion EB. apply length_uninit.
  - unfold enqueue_count_positive in E.
    destruct (enqueueNDRangeKernel _ _ _ _) as [d|e] eqn:EK; simpl in E;
      inversion E; simpl.
    split; [reflexivity|]. intros _.
    apply enqueue_count_positive_length in EK. rewrite EK. apply Hd. lia.
  - inversion E; simpl. split; [|intros _; apply Hd; lia].
    rewrite length_take. rewrite Hd by lia. lia.
Qed.

Lemma ceil_div_floor (n L : nat) :
  (0 < L)%nat -> ((n / L)%nat = ceil_div n L <-> (n mod L)%nat = 0%nat).
Proof.
  intros HL. unfold ceil_div.
  pose proof (Nat.div_mod_eq n L) as Hn.
  pose proof (Nat.mod_upper_bound n L ltac:(lia)) as Hr.
  set (q := (n / L)%nat) in *. set (r := (n mod L)%nat) in *.
  assert (Hc : ((n + L - 1) / L)%nat = (q + (if (r =? 0)%nat then 0 else 1))%nat).
  { symmetry. destruct (Nat.eqb_spec r 0) as [Hr0|Hr0].
    - apply (Nat.div_unique _ _ _ (L - 1)); [lia|]. nia.
    - apply (Nat.div_unique _ _ _ (r - 1)); [lia|]. nia. }
  rewrite Hc. destruct (Nat.eqb_spec r 0); lia.
Qed.

(** * The claims *)

(** C2. For an input made of [B] whole blocks of size [m], with [m] within the
    capacity of the shared buffer, a dispatch of [count_positive] runs (as
    soon as there is a block) and leaves in [result[k]], for every block [k],
    the number of elements of block [k] that are strictly greater than 0.
    The length of the input fits the [int] in which the kernel computes its
    indices, and [result] has a cell for every block. *)
Theorem count_positive_counts_each_block (a : list float)
    (garbage : nat -> nat -> float) (m B : nat) (result : list Z) :
  (0 < m <= Kernel.BUFFSIZE)%nat ->
  length a = (B * m)%nat ->
  Z.of_nat (length a) <= INT_MAX ->
  (B <= length result)%nat ->
  ((0 < B)%nat ->
   exists result',
     enqueueNDRangeKernel (run_group_count_positive a garbage)
                          (length a) m result = Ok result')
  /\ (forall result',
        enqueueNDRangeKernel (run_group_count_positive a garbage)
                             (length a) m result = Ok result' ->
        forall k, (k < B)%nat ->
                  result' !! k = Some (count_gt0 (block a m k))).
Proof.
  intros Hm Ha Hint HB.
  destruct (Nat.eq_dec B 0%nat) as [->|HB0].
  - split; [lia|]. intros result' _ k Hk. lia.
  - rewrite Ha. rewrite enqueue_whole_blocks by lia.
    destruct (count_positive_groups a garbage (B * m) m B result
                Hm Ha Hint HB) as (tab & E & _ & Hk).
    rewrite E. split; [eauto|].
    intros result' E' k Hlt. inversion E'; subst result'.
    rewrite Hk. now destruct (decide (k < B)%nat).
Qed.

Lemma count_positive_counts_each_block_witness :
  (exists result',
     enqueueNDRangeKernel (run_group_count_positive boundary_input nan_garbage)
                          (length boundary_input) 2 [0; 0; 0] = Ok result')
  /\ (forall result',
        enqueueNDRangeKernel (run_group_count_positive boundary_input nan_garbage)
                             (length boundary_input) 2 [0; 0; 0] = Ok result' ->
        forall k, (k < 3)%nat ->
                  result' !! k = Some (count_gt0 (block boundary_input 2 k))).
Proof.
  destruct (count_positive_counts_each_block boundary_input nan_garbage 2 3
              [0; 0; 0]) as [Hrun Hcount].
  - unfold Kernel.BUFFSIZE. lia.
  - reflexivity.
  - vm_compute. discriminate.
  - simpl. lia.
  - split; [apply Hrun; lia | exact Hcount].
Defined.

(** C3 (counterexample). Three elements, groups of two: lane 1 of group 1 has
    global index 3, past the end of the input; its load [a[k * m + t]] is
    nevertheless performed and falls outside the array, and the dispatch of
    the two groups faults. *)
Lemma count_positive_lane_not_masked :
  (length short_input <= global_id (WorkItem 3 4 1 2 1))%nat
  /\ rd short_input (Kernel.load_index (WorkItem 3 4 1 2 1))
     = Err Fault
  /\ Kernel.count_positive_load (WorkItem 3 4 1 2 1) short_input
                                (uninit (nan_garbage 1) Kernel.BUFFSIZE)
     = Err Fault
  /\ enqueueNDRangeKernel
       (run_group_count_positive short_input nan_garbage)
       4 2 [0; 0]
     = Err Fault.
Proof.
  split; [simpl; lia|].
  split; [vm_compute; reflexivity|].
  split; vm_compute; reflexivity.
Qed.

(** C3 (amended). [count_positive] has no mask: before the barrier every
    dispatched lane performs the load [a[k * m + t]]. For a lane [t] of group
    [k] whose global index [k * m + t] fits an [int], the load is inside the
    input, and stores that element in [buff[t]], when the global index is
    below [N]; it is an access outside the input when the global index is
    [N] or more. A dispatch over [NDRange(global)] only has lanes of global
    index below [global]. *)
Theorem count_positive_load_in_bounds (a : list float) (global m k t : nat)
    (buff : list float) :
  (t < m <= Kernel.BUFFSIZE)%nat ->
  length buff = Kernel.BUFFSIZE ->
  Z.of_nat (k * m + t) <= INT_MAX ->
  ((k * m + t < length a)%nat ->
   exists x, a !! (k * m + t)%nat = Some x
             /\ Kernel.count_positive_load (WorkItem (k * m + t) global t m k)
                                           a buff
                = Ok (<[t := x]> buff))
  /\ ((length a <= k * m + t)%nat ->
      rd a (Kernel.load_index (WorkItem (k * m + t) global t m k)) = Err Fault
      /\ Kernel.count_positive_load (WorkItem (k * m + t) global t m k) a buff
         = Err Fault)
  /\ ((global mod m = 0)%nat -> (k < global / m)%nat ->
      forall w, In w (lanes global m k) -> (global_id w < global)%nat).
Proof.
  intros Ht Hbuff Hmax.
  pose proof (lane_load_index global m k t ltac:(lia) Hmax) as Hidx.
  split; [|split].
  - intros Hin.
    destruct (lookup_lt_is_Some_2 a (k * m + t) Hin) as [x Hx].
    exists x. split; [exact Hx|].
    unfold Kernel.count_positive_load. rewrite Hidx, (rd_Some _ _ _ Hx).
    simpl. rewrite as_int_small by (unfold Kernel.BUFFSIZE, INT_MAX in *; lia).
    now rewrite wr_lt by lia.
  - intros Hout.
    assert (Hrd : rd a (Kernel.load_index (WorkItem (k * m + t) global t m k))
                  = Err Fault) by (rewrite Hidx; now apply rd_None).
    split; [exact Hrd|].
    unfold Kernel.count_positive_load. now rewrite Hrd.
  - intros Hdiv Hk w Hw. unfold lanes in Hw.
    apply List.in_map_iff in Hw as (t' & <- & Ht').
    apply List.in_seq in Ht'. simpl.
    pose proof (Nat.div_mod_eq global m) as Hg. rewrite Hdiv in Hg. nia.
Qed.

Lemma count_positive_load_in_bounds_witness :
  (exists x, short_input !! 2%nat = Some x
             /\ Kernel.count_positive_load (WorkItem 2 4 0 2 1)
                  short_input (uninit (nan_garbage 1) Kernel.BUFFSIZE)
                = Ok (<[0%nat := x]> (uninit (nan_garbage 1) Kernel.BUFFSIZE)))
  /\ (forall w, In w (lanes 4 2 1) -> (global_id w < 4)%nat).
Proof.
  destruct (count_positive_load_in_bounds short_input 4 2 1 0
              (uninit (nan_garbage 1) Kernel.BUFFSIZE))
    as (Hin & _ & Hlanes).
  - unfold Kernel.BUFFSIZE. lia.
  - reflexivity.
  - vm_compute. discriminate.
  - split.
    + apply Hin. simpl. lia.
    + apply Hlanes; [reflexivity | simpl; lia].
Defined.

(** C6 (counterexample). For 257 elements [bins] has one entry, while
    ceil(257/256) is 2: the short final block has no entry. *)
Lemma bins_has_no_entry_for_short_block :
  length (bins (init 257 ones)) = 1%nat
  /\ ceil_div 257 local_sz = 2%nat
  /\ length (bins (init 257 ones)) <> ceil_div 257 local_sz.
Proof.
  split; [vm_compute; reflexivity|].
  split; [vm_compute; reflexivity|].
  vm_compute. discriminate.
Qed.

(** C6 (amended). In every state of every run of [profile_filter] the table
    [bins] has exactly floor(N/L) entries ([n / local_sz] in integer
    division, [L = local_sz = 256]), one per whole block; that number is
    ceil(N/L) exactly when N is a multiple of L. *)
Theorem bins_has_floor_entries (n : nat) (rnd : nat -> float) (g : nat -> Z)
    (garbage : nat -> nat -> float) :
  Forall (fun h => length (bins h) = (n / local_sz)%nat)
         (profile_filter_states n rnd g garbage)
  /\ ((n / local_sz)%nat = ceil_div n local_sz <-> (n mod local_sz)%nat = 0%nat).
Proof.
  split; [|apply ceil_div_floor; unfold local_sz; lia].
  unfold profile_filter_states.
  eapply Forall_impl;
    [apply (states_invariant
              (fun j h => length (bins h) = (n / local_sz)%nat
                          /\ ((3 <= j)%nat ->
                              length (d_bins h) = (n / local_sz)%nat))
              (statements n g garbage) 0%nat (init n rnd))
    | intros h [j [Hb _]]; exact Hb].
  - simpl. rewrite length_replicate, bins_size_div. split; [reflexivity|lia].
  - intros j stmt h0 h1 Hj Hinv E.
    exact (statement_keeps_bins_size n g garbage _ j stmt h0 h1 Hj Hinv E).
Qed.

(** C9. Whenever the [filter] kernel runs (a non-empty NDRange the local size
    divides, [res_size] with at least one cell), it leaves the global work
    size [n], as the [int] the kernel reads it into, in [res_size[0]], and
    the buffer [result] exactly as it was. The outcome does not mention the
    input: it is the same for every input. *)
Theorem filter_kernel_reports_global_size (input : list float)
    (global local : nat) (res_size : list Z) (result : list float) :
  (0 < global)%nat -> (0 < local)%nat -> (global mod local = 0)%nat ->
  (0 < length res_size)%nat ->
  device_filter input global local res_size result
  = Ok (<[0%nat := as_int global]> res_size, result)
  /\ (Z.of_nat global <= INT_MAX -> as_int global = Z.of_nat global).
Proof.
  intros Hg Hl Hdiv Hres. split.
  - now apply device_filter_run.
  - apply as_int_small.
Qed.

Lemma filter_kernel_reports_global_size_witness :
  device_filter mixed_input 6 2 [0] (uninit (nan_garbage 0) 6)
  = Ok ([6], uninit (nan_garbage 0) 6).
Proof.
  destruct (filter_kernel_reports_global_size mixed_input 6 2 [0]
              (uninit (nan_garbage 0) 6)) as [Hrun _].
  - lia.
  - lia.
  - reflexivity.
  - simpl. lia.
  - exact Hrun.
Defined.

(** C10. In every state [profile_filter] goes through, from the declaration
    of [result_gpu] on, [result_gpu] is the empty vector; in particular it
    is empty in the state in which [verify_vector(result, result_gpu)] is
    called. *)
Theorem result_gpu_never_written (n : nat) (rnd : nat -> float) (g : nat -> Z)
    (garbage : nat -> nat -> float) :
  Forall (fun h => result_gpu h = []) (profile_filter_states n rnd g garbage)
  /\ (forall h, profile_filter n rnd g garbage = Ok h -> result_gpu h = []).
Proof.
  assert (Hall : Forall (fun h => result_gpu h = [])
                        (profile_filter_states n rnd g garbage)).
  { unfold profile_filter_states.
    eapply Forall_impl;
      [apply (states_invariant (fun _ h => result_gpu h = [])
                (statements n g garbage) 0%nat (init n rnd))
      | intros h [_ Hh]; exact Hh].
    - reflexivity.
    - intros j stmt h0 h1 Hj Hinv E.
      rewrite (statement_keeps_result_gpu n g garbage j stmt h0 h1 Hj E).
      exact Hinv. }
  split; [exact Hall|].
  intros h E. apply final_state_visited in E.
  rewrite List.Forall_forall in Hall. now apply Hall.
Qed.

Lemma result_gpu_never_written_witness :
  exists h, profile_filter 256 ones (fun _ => 0) nan_garbage = Ok h
            /\ result_gpu h = [].
Proof.
  destruct (result_gpu_never_written 256 ones (fun _ => 0) nan_garbage)
    as [_ Hend].
  eexists. split.
  - vm_compute. reflexivity.
  - apply Hend. vm_compute. reflexivity.
Defined.

(** C1. A run of [profile_filter] on whole blocks reaches [verify_vector]
    with [result] holding the output of the sequential filter and
    [result_gpu] empty: as soon as one input element is positive the device
    side of the benchmark does not produce the sequence the sequential filter
    produces. *)
Theorem profile_filter_device_output_empty (B n : nat) (rnd : nat -> float)
    (g : nat -> Z) (garbage : nat -> nat -> float) (i : nat) :
  (0 < B)%nat -> n = (B * local_sz)%nat -> Z.of_nat n <= INT_MAX ->
  (i < n)%nat -> positive (rnd i) = true ->
  exists h, profile_filter n rnd g garbage = Ok h
            /\ result h = Reference.sequential_filter (input h) positive
            /\ result_gpu h = []
            /\ result_gpu h <> result h.
Proof.
  intros HB Hn Hmax Hi Hp.
  eexists. split; [exact (profile_filter_runs B n rnd g garbage HB Hn Hmax)|].
  simpl. split; [reflexivity|]. split; [reflexivity|].
  intros E. symmetry in E. revert E.
  exact (sequential_filter_nonempty rnd n i Hi Hp).
Qed.

Lemma profile_filter_device_output_empty_witness :
  exists h, profile_filter 256 ones (fun _ => 0) nan_garbage = Ok h
            /\ result h = Reference.sequential_filter (input h) positive
            /\ result_gpu h = []
            /\ result_gpu h <> result h.
Proof.
  apply (profile_filter_device_output_empty 1 256 ones (fun _ => 0)
           nan_garbage 0).
  - lia.
  - reflexivity.
  - vm_compute. discriminate.
  - lia.
  - reflexivity.
Defined.

(** C4. A run of [profile_filter] on whole blocks enqueues one kernel,
    [count_positive], and nothing else: the block counts reach the host in
    [bins], and no scan of them and no compaction follows. *)
Theorem profile_filter_enqueues_count_positive_only (B n : nat)
    (rnd : nat -> float) (g : nat -> Z) (garbage : nat -> nat -> float) :
  (0 < B)%nat -> n = (B * local_sz)%nat -> Z.of_nat n <= INT_MAX ->
  exists h, profile_filter n rnd g garbage = Ok h
            /\ enqueued h = [K_count_positive]
            /\ bins h = block_counts (input h) local_sz.
Proof.
  intros HB Hn Hmax.
  eexists. split; [exact (profile_filter_runs B n rnd g garbage HB Hn Hmax)|].
  simpl. split; reflexivity.
Qed.

Lemma profile_filter_enqueues_count_positive_only_witness :
  exists h, profile_filter 256 ones (fun _ => 0) nan_garbage = Ok h
            /\ enqueued h = [K_count_positive]
            /\ bins h = block_counts (input h) local_sz.
Proof.
  apply (profile_filter_enqueues_count_positive_only 1 256 ones (fun _ => 0)
           nan_garbage).
  - lia.
  - reflexivity.
  - vm_compute. discriminate.
Defined.

(** C5. On the input [-1, 2, -3, 4, 5, -6], which has three positive
    elements, the [filter] kernel leaves every cell of [result] as it was,
    whatever [result] held, and reports 6 in [res_size[0]]: no destination
    index is written. *)
Theorem filter_kernel_writes_no_element (result : list float) :
  device_filter mixed_input 6 2 [0] result = Ok ([6], result)
  /\ count_gt0 mixed_input = 3.
Proof.
  split; [|reflexivity].
  rewrite device_filter_run by (simpl; lia || reflexivity). reflexivity.
Qed.

(** C7. With groups of 2 on [1, -1, 2, -2, 3, -3]: [count_positive] produces
    the block counts [1, 1, 1]; the [filter] kernel leaves [result] as it
    was, where the sequential filter returns [1, 2, 3]. *)
Theorem boundary_scenario_counts_only (garbage : nat -> nat -> float)
    (result : list float) :
  enqueueNDRangeKernel (run_group_count_positive boundary_input garbage)
                       6 2 [0; 0; 0] = Ok [1; 1; 1]
  /\ device_filter boundary_input 6 2 [0] result = Ok ([6], result)
  /\ Reference.sequential_filter boundary_input positive = map of_int [1; 2; 3].
Proof.
  split; [vm_compute; reflexivity|].
  split; [|vm_compute; reflexivity].
  rewrite device_filter_run by (simpl; lia || reflexivity). reflexivity.
Qed.

(** C8. Filtering the output of the filter again with the same predicate
    returns that output: for every input and every predicate. *)
Theorem sequential_filter_idempotent {A : Type} (input : list A)
    (p : A -> bool) :
  Reference.sequential_filter (Reference.sequential_filter input p) p
  = Reference.sequential_filter input p.
Proof.
  rewrite !sequential_filter_eq. apply filter_kept_again.
Qed.

(** * Further properties *)

(** ** Schedules of [count_positive] *)

(** A loop over any list that keeps an invariant on the list of elements
    already handled. *)
Lemma for_each_prefix_inv {X S : Type} (body : X -> S -> outcome S)
    (P : list X -> S -> Prop) (xs : list X) :
  forall (done : list X) (st : S),
    P done st ->
    (forall done' x st0, x ∈ xs -> P done' st0 ->
       exists st1, body x st0 = Ok st1 /\ P (done' ++ [x]) st1) ->
    exists st', for_each body xs st = Ok st' /\ P (done ++ xs) st'.
Proof.
  induction xs as [|x xs IH]; intros done st H0 Hstep; simpl.
  - exists st. now rewrite app_nil_r.
  - destruct (Hstep done x st ltac:(left) H0) as (st1 & E1 & P1).
    rewrite E1. simpl.
    destruct (IH (done ++ [x]) st1 P1) as (st' & E' & P').
    + intros done' y st0 Hy. apply Hstep. now right.
    + exists st'. split; [exact E'|]. now rewrite <- app_assoc in P'.
Qed.

Lemma for_each_app {X S : Type} (body : X -> S -> outcome S)
    (xs ys : list X) (s : S) :
  for_each body (xs ++ ys) s = (s' ← for_each body xs s; for_each body ys s').
Proof.
  revert s. induction xs as [|x xs IH]; intros s; simpl; [reflexivity|].
  destruct (body x s); simpl; [apply IH | reflexivity].
Qed.

Lemma lane_in_lanes (global m k : nat) (w : work_item) :
  w ∈ lanes global m k <->
  exists t, (t < m)%nat /\ w = WorkItem (k * m + t) global t m k.
Proof.
  unfold lanes. rewrite list_elem_of_fmap. split.
  - intros (t & -> & Ht). apply elem_of_seq in Ht. exists t. split; [lia|reflexivity].
  - intros (t & Ht & ->). exists t. split; [reflexivity|]. apply elem_of_seq. lia.
Qed.

Lemma lane_load_ok (a : list float) (global m k t : nat) (buff : list float) :
  (t < m)%nat ->
  (t < length buff)%nat ->
  (k * m + t < length a)%nat ->
  Z.of_nat (length a) <= INT_MAX ->
  exists x, a !! (k * m + t)%nat = Some x
            /\ Kernel.count_positive_load (WorkItem (k * m + t) global t m k)
                                          a buff
               = Ok (<[t := x]> buff).
Proof.
  intros Ht Hbuff Hin Hmax.
  destruct (lookup_lt_is_Some_2 a (k * m + t) Hin) as [x Hx].
  exists x. split; [exact Hx|].
  unfold Kernel.count_positive_load.
  rewrite lane_load_index by lia. rewrite (rd_Some _ _ _ Hx). simpl.
  rewrite as_int_small by lia.
  now rewrite wr_lt by lia.
Qed.

Lemma wr_ge {A : Type} (buf : list A) (i : nat) (x : A) :
  (length buf <= i)%nat -> wr buf (Z.of_nat i) x = Err Fault.
Proof.
  intros H. unfold wr.
  destruct (Z.ltb_spec (Z.of_nat i) (Z.of_nat (length buf))); [lia|].
  now rewrite andb_false_r.
Qed.

Section ScheduledGroup.

Variable a : list float.
Variable garbage : nat -> nat -> float.
Variables global m k : nat.
Variable result : list Z.

Hypothesis m_pos : (0 < m)%nat.
Hypothesis m_fits : (m <= Kernel.BUFFSIZE)%nat.
Hypothesis block_inside : (k * m + m <= length a)%nat.
Hypothesis a_int : Z.of_nat (length a) <= INT_MAX.
Hypothesis k_in : (k < length result)%nat.

(** Whatever the order in which the lanes reach the barrier, the first [m]
    cells of [buff] hold the block. *)
Lemma loads_fill_block_any_order (before : list work_item) :
  before ≡ₚ lanes global m k ->
  exists buff,
    for_each (fun w => Kernel.count_positive_load w a) before
             (uninit (garbage k) Kernel.BUFFSIZE) = Ok buff
    /\ length buff = Kernel.BUFFSIZE
    /\ take m buff = block a m k.
Proof.
  intros Hperm.
  destruct (for_each_prefix_inv
    (fun w => Kernel.count_positive_load w a)
    (fun done buff =>
       length buff = Kernel.BUFFSIZE
       /\ forall j, buff !! j =
            if decide (j ∈ map local_id done) then a !! (k * m + j)%nat
            else uninit (garbage k) Kernel.BUFFSIZE !! j)
    before [] (uninit (garbage k) Kernel.BUFFSIZE)) as (buff & E & Hl & Hj).
  - split; [apply length_uninit|]. intros j. simpl.
    destruct (decide (j ∈ [])) as [Hin|_]; [|reflexivity].
    now apply elem_of_nil in Hin.
  - intros done w buff Hw [Hl Hj].
    rewrite Hperm in Hw. apply lane_in_lanes in Hw as (t & Ht & ->).
    destruct (lane_load_ok a global m k t buff) as (x & Hx & E);
      [lia | lia | lia | exact a_int |].
    rewrite E. eexists; split; [reflexivity|].
    split; [now rewrite length_insert|].
    intros j. rewrite map_app. simpl.
    destruct (decide (j = t)) as [->|Hne].
    + rewrite list_lookup_insert_eq by lia.
      destruct (decide (t ∈ map local_id done ++ [t])) as [_|Hn]; [now rewrite Hx|].
      exfalso. apply Hn. apply elem_of_app. right. now apply list_elem_of_singleton.
    + rewrite list_lookup_insert_ne by congruence. rewrite Hj.
      destruct (decide (j ∈ map local_id done)) as [Hd|Hd],
               (decide (j ∈ map local_id done ++ [t])) as [Hd'|Hd'];
        try reflexivity; exfalso.
      * apply Hd'. apply elem_of_app. now left.
      * apply elem_of_app in Hd' as [Hd'|Hd']; [contradiction|].
        apply list_elem_of_singleton in Hd'. contradiction.
  - exists buff. split; [exact E|]. split; [exact Hl|].
    apply list_eq. intros j. unfold block.
    rewrite !lookup_take. destruct (decide (j < m)%nat) as [Hlt|]; [|reflexivity].
    rewrite lookup_drop, Hj. simpl.
    destruct (decide (j ∈ map local_id before)) as [_|Hn]; [reflexivity|].
    exfalso. apply Hn. apply list_elem_of_fmap.
    exists (WorkItem (k * m + j) global j m k). split; [reflexivity|].
    rewrite Hperm. apply lane_in_lanes. eauto.
Qed.

(** Whatever the order in which the lanes leave the barrier, [result[k]]
    receives the count of the first [m] cells of [buff] and nothing else
    changes. *)
Lemma scans_write_count_any_order (after : list work_item) (buff : list float) :
  after ≡ₚ lanes global m k ->
  length buff = Kernel.BUFFSIZE ->
  for_each (fun w => Kernel.count_positive_scan w buff) after result
  = Ok (<[k := count_gt0 (take m buff)]> result).
Proof.
  intros Hperm Hl.
  destruct (for_each_prefix_inv
    (fun w => Kernel.count_positive_scan w buff)
    (fun done st =>
       st = if decide (0%nat ∈ map local_id done)
            then <[k := count_gt0 (take m buff)]> result else result)
    after [] result) as (st & E & Hst).
  - simpl. destruct (decide (0%nat ∈ [])) as [Hin|_]; [|reflexivity].
    now apply elem_of_nil in Hin.
  - intros done w st0 Hw ->.
    rewrite Hperm in Hw. apply lane_in_lanes in Hw as (t & Ht & ->).
    rewrite map_app. simpl.
    destruct (Nat.eq_dec t 0%nat) as [->|Hne].
    + assert (H0 : 0%nat ∈ map local_id done ++ [0%nat])
        by (apply elem_of_app; right; now apply list_elem_of_singleton).
      destruct (decide (0%nat ∈ map local_id done ++ [0%nat])); [|contradiction].
      destruct (decide (0%nat ∈ map local_id done)).
      * rewrite (scan_lane_0 a global m k m_pos m_fits block_inside a_int
                   (<[k := count_gt0 (take m buff)]> result))
          by (rewrite ?length_insert; assumption).
        rewrite list_insert_insert_eq. eauto.
      * rewrite (scan_lane_0 a global m k m_pos m_fits block_inside a_int
                   result k_in buff Hl). eauto.
    + rewrite (scan_lane_other a global m k m_pos m_fits block_inside result k_in)
        by lia.
      eexists; split; [reflexivity|].
      destruct (decide (0%nat ∈ map local_id done)) as [Hd|Hd],
               (decide (0%nat ∈ map local_id done ++ [t])) as [Hd'|Hd'];
        try reflexivity; exfalso.
      * apply Hd'. apply elem_of_app. now left.
      * apply elem_of_app in Hd' as [Hd'|Hd']; [contradiction|].
        apply list_elem_of_singleton in Hd'. lia.
  - rewrite E. f_equal. rewrite Hst. simpl.
    destruct (decide (0%nat ∈ map local_id after)) as [_|Hn]; [reflexivity|].
    exfalso. apply Hn. apply list_elem_of_fmap.
    exists (WorkItem (k * m + 0) global 0 m k). split; [reflexivity|].
    rewrite Hperm. apply lane_in_lanes. exists 0%nat. split; [lia|reflexivity].
Qed.

End ScheduledGroup.

(** Within a group the order of the lanes does not matter, on either side of
    the barrier: the group stores the count of its block in [result[k]] and
    changes nothing else. *)
Theorem count_positive_lane_order_irrelevant (a : list float)
    (garbage : nat -> nat -> float) (global m k : nat) (result : list Z)
    (before after : list work_item) :
  (0 < m <= Kernel.BUFFSIZE)%nat ->
  (k * m + m <= length a)%nat ->
  Z.of_nat (length a) <= INT_MAX ->
  (k < length result)%nat ->
  before ≡ₚ lanes global m k ->
  after ≡ₚ lanes global m k ->
  run_group_count_positive_scheduled a garbage before after k result
  = Ok (<[k := count_gt0 (block a m k)]> result)
  /\ run_group_count_positive a garbage global m k result
     = run_group_count_positive_scheduled a garbage before after k result.
Proof.
  intros [Hm0 Hm] Hblock Hint Hk Hbefore Hafter.
  assert (E : run_group_count_positive_scheduled a garbage before after k result
              = Ok (<[k := count_gt0 (block a m k)]> result)).
  { unfold run_group_count_positive_scheduled.
    destruct (loads_fill_block_any_order a garbage global m k result Hm0 Hm
                Hblock Hint Hk before Hbefore) as (buff & E & Hl & Hb).
    rewrite E. simpl.
    rewrite (scans_write_count_any_order a global m k result Hm0 Hm Hblock
               Hint Hk after buff Hafter Hl).
    now rewrite Hb. }
  split; [exact E|]. rewrite E.
  now apply run_group_count_positive_correct.
Qed.

Lemma count_positive_lane_order_irrelevant_witness :
  run_group_count_positive_scheduled boundary_input nan_garbage
    [WorkItem 3 6 1 2 1; WorkItem 2 6 0 2 1]
    [WorkItem 3 6 1 2 1; WorkItem 2 6 0 2 1] 1 [0; 0; 0]
  = Ok [0; 1; 0].
Proof.
  destruct (count_positive_lane_order_irrelevant boundary_input nan_garbage
              6 2 1 [0; 0; 0]
              [WorkItem 3 6 1 2 1; WorkItem 2 6 0 2 1]
              [WorkItem 3 6 1 2 1; WorkItem 2 6 0 2 1]) as [E _].
  - unfold Kernel.BUFFSIZE. lia.
  - simpl. lia.
  - vm_compute. discriminate.
  - simpl. lia.
  - apply perm_swap.
  - apply perm_swap.
  - exact E.
Defined.

(** The table a dispatch over whole blocks leaves, whatever the order in
    which the groups of [order] run. *)
Lemma count_positive_groups_any_order (a : list float)
    (garbage : nat -> nat -> float) (global m B : nat) (result : list Z)
    (order : list nat) :
  (0 < m <= Kernel.BUFFSIZE)%nat ->
  length a = (B * m)%nat ->
  Z.of_nat (length a) <= INT_MAX ->
  (B <= length result)%nat ->
  (forall k, k ∈ order -> (k < B)%nat) ->
  exists result',
    for_each (fun k => run_group_count_positive a garbage global m k)
             order result = Ok result'
    /\ length result' = length result
    /\ forall k, result' !! k =
         if decide (k ∈ order) then Some (count_gt0 (block a m k))
         else result !! k.
Proof.
  intros Hm Ha Hint HB Horder.
  destruct (for_each_prefix_inv
    (fun k => run_group_count_positive a garbage global m k)
    (fun done st =>
       length st = length result
       /\ forall k, st !! k =
            if decide (k ∈ done) then Some (count_gt0 (block a m k))
            else result !! k)
    order [] result) as (st & E & Hl & Hk).
  - split; [reflexivity|]. intros k.
    destruct (decide (k ∈ [])) as [Hin|_]; [|reflexivity].
    now apply elem_of_nil in Hin.
  - intros done i st0 Hi [Hl Hk]. apply Horder in Hi.
    rewrite run_group_count_positive_correct by (try lia; nia).
    eexists; split; [reflexivity|]. split; [now rewrite length_insert|].
    intros k. destruct (decide (k = i)) as [->|Hne].
    + rewrite list_lookup_insert_eq by lia.
      destruct (decide (i ∈ done ++ [i])) as [_|Hn]; [reflexivity|].
      exfalso. apply Hn. apply elem_of_app. right. now apply list_elem_of_singleton.
    + rewrite list_lookup_insert_ne by congruence. rewrite Hk.
      destruct (decide (k ∈ done)) as [Hd|Hd],
               (decide (k ∈ done ++ [i])) as [Hd'|Hd'];
        try reflexivity; exfalso.
      * apply Hd'. apply elem_of_app. now left.
      * apply elem_of_app in Hd' as [Hd'|Hd']; [contradiction|].
        apply list_elem_of_singleton in Hd'. contradiction.
  - exists st. simpl in Hk. auto.
Qed.

(** The groups of a dispatch of [count_positive] over whole blocks may run in
    any order: the outcome is the one of the dispatch in index order. *)
Theorem count_positive_group_order_irrelevant (a : list float)
    (garbage : nat -> nat -> float) (m B : nat) (result : list Z)
    (order : list nat) :
  (0 < m <= Kernel.BUFFSIZE)%nat ->
  (0 < B)%nat ->
  length a = (B * m)%nat ->
  Z.of_nat (length a) <= INT_MAX ->
  (B <= length result)%nat ->
  order ≡ₚ seq 0 B ->
  run_groups_in_order (run_group_count_positive a garbage)
                      (length a) m order result
  = enqueueNDRangeKernel (run_group_count_positive a garbage)
                         (length a) m result.
Proof.
  intros Hm HB0 Ha Hint HB Hperm.
  unfold run_groups_in_order. rewrite Ha.
  rewrite enqueue_whole_blocks by lia.
  destruct (count_positive_groups a garbage (B * m) m B result Hm Ha Hint HB)
    as (tab & E & Hl & Hk).
  destruct (count_positive_groups_any_order a garbage (B * m) m B result
              order Hm Ha Hint HB) as (tab' & E' & Hl' & Hk').
  { intros k Hin. rewrite Hperm in Hin. apply elem_of_seq in Hin. lia. }
  rewrite E, E'. f_equal.
  apply list_eq. intros k. rewrite Hk, Hk'.
  destruct (decide (k ∈ order)) as [Hin|Hin], (decide (k < B)%nat) as [Hlt|Hlt];
    try reflexivity; exfalso.
  - rewrite Hperm in Hin. apply elem_of_seq in Hin. lia.
  - apply Hin. rewrite Hperm. apply elem_of_seq. lia.
Qed.

Lemma count_positive_group_order_irrelevant_witness :
  run_groups_in_order (run_group_count_positive boundary_input nan_garbage)
                      (length boundary_input) 2 [1; 0; 2]%nat [0; 0; 0]
  = enqueueNDRangeKernel (run_group_count_positive boundary_input nan_garbage)
                         (length boundary_input) 2 [0; 0; 0].
Proof.
  apply (count_positive_group_order_irrelevant boundary_input nan_garbage 2 3
           [0; 0; 0] [1; 0; 2]%nat).
  - unfold Kernel.BUFFSIZE. lia.
  - lia.
  - reflexivity.
  - vm_compute. discriminate.
  - simpl. lia.
  - apply perm_swap.
Defined.

(** ** What a dispatch of [count_positive] reads and writes *)

(** The outcome of a dispatch over whole blocks does not depend on what the
    local memory held when the groups started: every cell of [buff] that is
    read has been written before the barrier. *)
Theorem count_positive_ignores_local_garbage (a : list float)
    (garbage1 garbage2 : nat -> nat -> float) (m B : nat) (result : list Z) :
  (0 < m <= Kernel.BUFFSIZE)%nat ->
  length a = (B * m)%nat ->
  Z.of_nat (length a) <= INT_MAX ->
  (B <= length result)%nat ->
  enqueueNDRangeKernel (run_group_count_positive a garbage1)
                       (length a) m result
  = enqueueNDRangeKernel (run_group_count_positive a garbage2)
                         (length a) m result.
Proof.
  intros Hm Ha Hint HB.
  destruct (Nat.eq_dec B 0%nat) as [HB0|HB0].
  - rewrite Ha, HB0. reflexivity.
  - rewrite Ha. rewrite !enqueue_whole_blocks by lia.
    destruct (count_positive_groups a garbage1 (B * m) m B result Hm Ha Hint HB)
      as (tab1 & E1 & Hl1 & Hk1).
    destruct (count_positive_groups a garbage2 (B * m) m B result Hm Ha Hint HB)
      as (tab2 & E2 & Hl2 & Hk2).
    rewrite E1, E2. f_equal. apply list_eq. intros k. now rewrite Hk1, Hk2.
Qed.

Lemma count_positive_ignores_local_garbage_witness :
  enqueueNDRangeKernel (run_group_count_positive boundary_input nan_garbage)
                       (length boundary_input) 2 [0; 0; 0]
  = enqueueNDRangeKernel
      (run_group_count_positive boundary_input (fun _ _ => of_int 7))
      (length boundary_input) 2 [0; 0; 0].
Proof.
  apply (count_positive_ignores_local_garbage boundary_input nan_garbage
           (fun _ _ => of_int 7) 2 3 [0; 0; 0]).
  - unfold Kernel.BUFFSIZE. lia.
  - reflexivity.
  - vm_compute. discriminate.
  - simpl. lia.
Defined.

Lemma length_block_le {A : Type} (a : list A) (L k : nat) :
  (length (block a L k) <= L)%nat.
Proof. unfold block. rewrite length_take. lia. Qed.

(** A dispatch over [B] whole blocks keeps the size of [result], leaves the
    cells from index [B] on as they were, and stores in each of the first
    [B] cells a count between 0 and the block size. *)
Theorem count_positive_frame (a : list float) (garbage : nat -> nat -> float)
    (m B : nat) (result result' : list Z) :
  (0 < m <= Kernel.BUFFSIZE)%nat ->
  length a = (B * m)%nat ->
  Z.of_nat (length a) <= INT_MAX ->
  (B <= length result)%nat ->
  enqueueNDRangeKernel (run_group_count_positive a garbage)
                       (length a) m result = Ok result' ->
  length result' = length result
  /\ (forall k, (B <= k)%nat -> result' !! k = result !! k)
  /\ (forall k, (k < B)%nat ->
        exists c, result' !! k = Some c /\ 0 <= c <= Z.of_nat m).
Proof.
  intros Hm Ha Hint HB E.
  destruct (Nat.eq_dec B 0%nat) as [HB0|HB0].
  - rewrite Ha, HB0 in E. discriminate.
  - rewrite Ha in E. rewrite enqueue_whole_blocks in E by lia.
    destruct (count_positive_groups a garbage (B * m) m B result Hm Ha Hint HB)
      as (tab & E' & Hl & Hk).
    rewrite E' in E. inversion E; subst result'. clear E.
    split; [exact Hl|]. split.
    + intros k Hge. rewrite Hk. now destruct (decide (k < B)%nat); [lia|].
    + intros k Hlt. rewrite Hk. destruct (decide (k < B)%nat); [|lia].
      eexists; split; [reflexivity|].
      pose proof (count_gt0_bounds (block a m k)).
      pose proof (length_block_le a m k). lia.
Qed.

Lemma count_positive_frame_witness :
  length [1; 1; 1; 9] = length [0; 0; 0; 9]
  /\ (forall k, (3 <= k)%nat -> [1; 1; 1; 9] !! k = [0; 0; 0; 9] !! k)
  /\ (forall k, (k < 3)%nat ->
        exists c, [1; 1; 1; 9] !! k = Some c /\ 0 <= c <= Z.of_nat 2).
Proof.
  apply (count_positive_frame boundary_input nan_garbage 2 3 [0; 0; 0; 9]
           [1; 1; 1; 9]).
  - unfold Kernel.BUFFSIZE. lia.
  - reflexivity.
  - vm_compute. discriminate.
  - simpl. lia.
  - vm_compute. reflexivity.
Defined.

(** Groups larger than [BUFFSIZE] overrun the local array: on an input of
    whole blocks lane [BUFFSIZE] of the first group stores outside [buff],
    and the dispatch faults. *)
Theorem count_positive_group_overruns_buff (a : list float)
    (garbage : nat -> nat -> float) (m B : nat) (result : list Z) :
  (Kernel.BUFFSIZE < m)%nat ->
  (0 < B)%nat ->
  length a = (B * m)%nat ->
  Z.of_nat (length a) <= INT_MAX ->
  enqueueNDRangeKernel (run_group_count_positive a garbage)
                       (length a) m result = Err Fault.
Proof.
  intros Hm HB Ha Hint.
  rewrite Ha. rewrite enqueue_whole_blocks by lia.
  assert (Hgroups : seq 0 B = 0%nat :: seq 1 (B - 1)).
  { destruct B; [lia|]. simpl. now rewrite Nat.sub_0_r. }
  rewrite Hgroups. cbn [for_each].
  assert (Hload : for_each (fun w => Kernel.count_positive_load w a)
                    (lanes (B * m) m 0) (uninit (garbage 0%nat) Kernel.BUFFSIZE)
                  = Err Fault).
  { unfold lanes. rewrite for_each_map.
    assert (Hseq : seq 0 m = seq 0 Kernel.BUFFSIZE
                             ++ seq Kernel.BUFFSIZE (m - Kernel.BUFFSIZE)).
    { replace m with (Kernel.BUFFSIZE + (m - Kernel.BUFFSIZE))%nat at 1
        by lia.
      apply seq_app. }
    rewrite Hseq, for_each_app.
    destruct (for_each_seq_inv
      (fun t => Kernel.count_positive_load
                  (WorkItem (0 * m + t) (B * m) t m 0) a)
      (fun _ buff => length buff = Kernel.BUFFSIZE)
      Kernel.BUFFSIZE 0%nat (uninit (garbage 0%nat) Kernel.BUFFSIZE))
      as (buff & E & Hl).
    - apply length_uninit.
    - intros t buff Ht Hl.
      destruct (lane_load_ok a (B * m) m 0 t buff) as (x & _ & E);
        [lia | lia | nia | exact Hint |].
      rewrite E. eexists; split; [reflexivity|]. now rewrite length_insert.
    - rewrite E. cbn [mbind outcome_bind].
      assert (Hrest : seq Kernel.BUFFSIZE (m - Kernel.BUFFSIZE)
                      = Kernel.BUFFSIZE
                        :: seq (Datatypes.S Kernel.BUFFSIZE)
                               (m - Kernel.BUFFSIZE - 1)).
      { destruct (m - Kernel.BUFFSIZE)%nat eqn:Ed; [lia|].
        simpl. now rewrite Nat.sub_0_r. }
      rewrite Hrest. cbn [for_each].
      assert (Hlane : Kernel.count_positive_load
                        (WorkItem (0 * m + Kernel.BUFFSIZE) (B * m)
                                  Kernel.BUFFSIZE m 0) a buff = Err Fault).
      { destruct (lookup_lt_is_Some_2 a (0 * m + Kernel.BUFFSIZE)
                    ltac:(nia)) as [x Hx].
        unfold Kernel.count_positive_load.
        rewrite lane_load_index by (try lia; nia).
        rewrite (rd_Some _ _ _ Hx). simpl.
        rewrite as_int_small by nia.
        apply wr_ge. lia. }
      rewrite Hlane. reflexivity. }
  assert (Hgroup : run_group_count_positive a garbage (B * m) m 0 result
                   = Err Fault).
  { unfold run_group_count_positive. rewrite Hload. reflexivity. }
  rewrite Hgroup. reflexivity.
Qed.

Lemma count_positive_group_overruns_buff_witness :
  enqueueNDRangeKernel
    (run_group_count_positive (uninit ones 1025) nan_garbage)
    (length (uninit ones 1025)) 1025 [0] = Err Fault.
Proof.
  apply (count_positive_group_overruns_buff (uninit ones 1025) nan_garbage
           1025 1 [0]).
  - unfold Kernel.BUFFSIZE. lia.
  - lia.
  - vm_compute. reflexivity.
  - vm_compute. discriminate.
Defined.

(** ** The [filter] kernel without a cell to report in *)

(** With an empty [res_size] the first work-item stores outside the buffer:
    every valid dispatch of [filter] faults. *)
Theorem filter_kernel_needs_res_size_cell (input : list float)
    (global local : nat) (result : list float) :
  (0 < global)%nat -> (0 < local)%nat -> (global mod local = 0)%nat ->
  device_filter input global local [] result = Err Fault.
Proof.
  intros Hg Hl Hdiv. unfold device_filter, enqueueNDRangeKernel.
  destruct (Nat.eqb_spec global 0); [lia|].
  destruct (Nat.eqb_spec local 0); [lia|].
  rewrite Hdiv. simpl.
  assert (Hs : seq 0 (global / local) = 0%nat :: seq 1 (global / local - 1)).
  { pose proof (Nat.div_mod_eq global local) as Hc. rewrite Hdiv in Hc.
    destruct (global / local)%nat; [lia|]. simpl. now rewrite Nat.sub_0_r. }
  rewrite Hs. cbn [for_each].
  assert (Hgroup : run_group_filter input global local 0 ([], result)
                   = Err Fault).
  { unfold run_group_filter, lanes. rewrite for_each_map.
    assert (Hl0 : seq 0 local = 0%nat :: seq 1 (local - 1)).
    { destruct local; [lia|]. simpl. now rewrite Nat.sub_0_r. }
    rewrite Hl0. reflexivity. }
  rewrite Hgroup. reflexivity.
Qed.

Lemma filter_kernel_needs_res_size_cell_witness :
  device_filter mixed_input 6 2 [] [] = Err Fault.
Proof.
  apply (filter_kernel_needs_res_size_cell mixed_input 6 2 []).
  - lia.
  - lia.
  - reflexivity.
Defined.

(** ** The runs of [profile_filter] *)

Lemma profile_filter_unfold (n : nat) (rnd : nat -> float) (g : nat -> Z)
    (garbage : nat -> nat -> float) :
  profile_filter n rnd g garbage
  = (d_in ← Buffer (map rnd (seq 0 n));
     d_b ← Buffer (uninit g (length (replicate (bins_size n) 0)));
     d ← enqueueNDRangeKernel (run_group_count_positive d_in garbage)
                              n local_sz d_b;
     Ok {| input := map rnd (seq 0 n);
           bins := take (length (replicate (bins_size n) 0)) d;
           result := Reference.sequential_filter (map rnd (seq 0 n)) positive;
           result_gpu := [];
           d_input := d_in;
           d_bins := d;
           enqueued := [K_count_positive] |}).
Proof.
  unfold profile_filter, statements, init. cbn [for_each].
  unfold call_filter at 1. cbn [mbind outcome_bind input bins result result_gpu
    d_input d_bins enqueued].
  unfold create_d_input at 1. cbn [input bins result result_gpu d_input d_bins
    enqueued].
  destruct (Buffer (map rnd (seq 0 n))) as [d_in|e];
    cbn [mbind outcome_bind]; [|reflexivity].
  unfold create_d_bins at 1. cbn [input bins result result_gpu d_input d_bins
    enqueued].
  destruct (Buffer (uninit g _)) as [d_b|e];
    cbn [mbind outcome_bind]; [|reflexivity].
  unfold enqueue_count_positive at 1. cbn [input bins result result_gpu d_input
    d_bins enqueued].
  destruct (enqueueNDRangeKernel _ _ _ _) as [d|e];
    cbn [mbind outcome_bind]; reflexivity.
Qed.

Lemma Buffer_empty {A : Type} (content : list A) :
  length content = 0%nat -> Buffer content = Err CL_INVALID_BUFFER_SIZE.
Proof. intros H. unfold Buffer. now rewrite H. Qed.

Lemma profile_filter_small (n : nat) (rnd : nat -> float) (g : nat -> Z)
    (garbage : nat -> nat -> float) :
  (n < local_sz)%nat ->
  profile_filter n rnd g garbage = Err CL_INVALID_BUFFER_SIZE.
Proof.
  intros Hn. rewrite profile_filter_unfold.
  destruct (Nat.eq_dec n 0%nat) as [->|Hn0].
  - reflexivity.
  - rewrite (Buffer_nonempty (map rnd (seq 0 n)))
      by (rewrite length_map, length_seq; lia).
    cbn [mbind outcome_bind].
    rewrite Buffer_empty; [reflexivity|].
    rewrite length_uninit, length_replicate, bins_size_div.
    apply Nat.div_small. exact Hn.
Qed.

Lemma profile_filter_ragged (n : nat) (rnd : nat -> float) (g : nat -> Z)
    (garbage : nat -> nat -> float) :
  (local_sz <= n)%nat -> (n mod local_sz)%nat <> 0%nat ->
  profile_filter n rnd g garbage = Err CL_INVALID_WORK_GROUP_SIZE.
Proof.
  intros Hn Hmod. rewrite profile_filter_unfold.
  assert (0 < n / local_sz)%nat
    by (apply Nat.div_str_pos; unfold local_sz in *; lia).
  rewrite (Buffer_nonempty (map rnd (seq 0 n)))
    by (rewrite length_map, length_seq; unfold local_sz in *; lia).
  cbn [mbind outcome_bind].
  rewrite (Buffer_nonempty (uninit g _))
    by (rewrite length_uninit, length_replicate, bins_size_div; lia).
  cbn [mbind outcome_bind].
  unfold enqueueNDRangeKernel.
  destruct (Nat.eqb_spec n 0); [unfold local_sz in *; lia|].
  destruct (Nat.eqb_spec (n mod local_sz) 0); [contradiction|].
  reflexivity.
Qed.

(** How a run of [profile_filter] ends, by the size of the input: an input
    shorter than a block stops at the creation of a device buffer of size 0,
    a longer input that is not made of whole blocks stops at the dispatch,
    and an input of whole blocks reaches the call of [verify_vector]. *)
Theorem profile_filter_outcome (n : nat) (rnd : nat -> float) (g : nat -> Z)
    (garbage : nat -> nat -> float) :
  ((n < local_sz)%nat ->
   profile_filter n rnd g garbage = Err CL_INVALID_BUFFER_SIZE)
  /\ ((local_sz <= n)%nat -> (n mod local_sz)%nat <> 0%nat ->
      profile_filter n rnd g garbage = Err CL_INVALID_WORK_GROUP_SIZE)
  /\ ((0 < n)%nat -> (n mod local_sz)%nat = 0%nat -> Z.of_nat n <= INT_MAX ->
      exists h, profile_filter n rnd g garbage = Ok h).
Proof.
  split; [apply profile_filter_small|].
  split; [apply profile_filter_ragged|].
  intros Hn Hmod Hmax.
  pose proof (Nat.div_mod_eq n local_sz) as Hdiv. rewrite Hmod in Hdiv.
  eexists.
  apply (profile_filter_runs (n / local_sz) n rnd g garbage); [|lia|exact Hmax].
  destruct (n / local_sz)%nat; lia.
Qed.

Lemma profile_filter_outcome_witness :
  profile_filter 100 ones (fun _ => 0) nan_garbage = Err CL_INVALID_BUFFER_SIZE
  /\ profile_filter 257 ones (fun _ => 0) nan_garbage
     = Err CL_INVALID_WORK_GROUP_SIZE
  /\ exists h, profile_filter 256 ones (fun _ => 0) nan_garbage = Ok h.
Proof.
  split; [|split].
  - apply (profile_filter_outcome 100 ones (fun _ => 0) nan_garbage).
    unfold local_sz. lia.
  - apply (profile_filter_outcome 257 ones (fun _ => 0) nan_garbage).
    + unfold local_sz. lia.
    + vm_compute. discriminate.
  - apply (profile_filter_outcome 256 ones (fun _ => 0) nan_garbage).
    + lia.
    + reflexivity.
    + vm_compute. discriminate.
Defined.

(** ** The counts and the input *)

Lemma count_gt0_app (xs ys : list float) :
  count_gt0 (xs ++ ys) = count_gt0 xs + count_gt0 ys.
Proof.
  unfold count_gt0. rewrite List.filter_app, length_app. lia.
Qed.

Lemma block_shift {A : Type} (a : list A) (L k : nat) :
  block a L (Datatypes.S k) = block (drop L a) L k.
Proof.
  unfold block. rewrite drop_drop. reflexivity.
Qed.

Lemma block_counts_sum (L B : nat) :
  forall a : list float,
    length a = (B * L)%nat ->
    sum_Z (map (fun k => count_gt0 (block a L k)) (seq 0 B)) = count_gt0 a.
Proof.
  induction B as [|B IH]; intros a Ha.
  - destruct a; [reflexivity | discriminate].
  - cbn [seq map sum_Z fold_right]. rewrite <- seq_shift, map_map.
    rewrite (map_ext _ (fun k => count_gt0 (block (drop L a) L k)))
      by (intros k; now rewrite block_shift).
    fold (sum_Z (map (fun k => count_gt0 (block (drop L a) L k)) (seq 0 B))).
    rewrite IH by (rewrite length_drop; lia).
    unfold block. rewrite drop_0.
    rewrite <- (take_drop L a) at 3. now rewrite count_gt0_app.
Qed.

Lemma profile_filter_Ok_whole_blocks (n : nat) (rnd : nat -> float)
    (g : nat -> Z) (garbage : nat -> nat -> float) (h : host) :
  profile_filter n rnd g garbage = Ok h ->
  (0 < n / local_sz)%nat /\ n = (n / local_sz * local_sz)%nat.
Proof.
  intros E.
  destruct (Nat.lt_ge_cases n local_sz) as [Hlt|Hge].
  - rewrite profile_filter_small in E by exact Hlt. discriminate.
  - destruct (Nat.eq_dec (n mod local_sz)%nat 0%nat) as [Hmod|Hmod].
    + pose proof (Nat.div_mod_eq n local_sz) as Hdiv. rewrite Hmod in Hdiv.
      split; [|lia]. apply Nat.div_str_pos. unfold local_sz in *. lia.
    + rewrite profile_filter_ragged in E by assumption. discriminate.
Qed.

(** When [profile_filter] reaches [verify_vector], [bins] holds one count per
    block of 256 elements, each between 0 and 256, and the counts add up to
    the number of positive elements of the input. *)
Theorem profile_filter_bins_sum (n : nat) (rnd : nat -> float) (g : nat -> Z)
    (garbage : nat -> nat -> float) (h : host) :
  Z.of_nat n <= INT_MAX ->
  profile_filter n rnd g garbage = Ok h ->
  length (bins h) = (n / local_sz)%nat
  /\ Forall (fun c => 0 <= c <= Z.of_nat local_sz) (bins h)
  /\ sum_Z (bins h) = count_gt0 (input h).
Proof.
  intros Hmax E.
  destruct (profile_filter_Ok_whole_blocks n rnd g garbage h E) as [HB Hn].
  rewrite (profile_filter_runs (n / local_sz) n rnd g garbage HB Hn Hmax) in E.
  inversion E; subst h; clear E. cbn [bins input].
  assert (Hlen : length (map rnd (seq 0 n)) = n)
    by now rewrite length_map, length_seq.
  unfold block_counts. rewrite Hlen.
  split; [now rewrite length_map, length_seq|]. split.
  - apply List.Forall_forall. intros c Hc.
    apply List.in_map_iff in Hc as (k & <- & _).
    pose proof (count_gt0_bounds (block (map rnd (seq 0 n)) local_sz k)).
    pose proof (length_block_le (map rnd (seq 0 n)) local_sz k). lia.
  - apply block_counts_sum. now rewrite Hlen.
Qed.

Lemma profile_filter_bins_sum_witness :
  exists h, profile_filter 256 ones (fun _ => 0) nan_garbage = Ok h
            /\ length (bins h) = (256 / local_sz)%nat
            /\ Forall (fun c => 0 <= c <= Z.of_nat local_sz) (bins h)
            /\ sum_Z (bins h) = count_gt0 (input h).
Proof.
  eexists. split.
  - vm_compute. reflexivity.
  - apply (profile_filter_bins_sum 256 ones (fun _ => 0) nan_garbage).
    + vm_compute. discriminate.
    + vm_compute. reflexivity.
Defined.

Lemma profile_filter_whole_run (B n : nat) (rnd : nat -> float) (g : nat -> Z)
    (garbage : nat -> nat -> float) :
  (0 < B)%nat -> n = (B * local_sz)%nat -> Z.of_nat n <= INT_MAX ->
  exists h, profile_filter n rnd g garbage = Ok h
            /\ length (input h) = n
            /\ length (bins h) = B
            /\ sum_Z (bins h) = count_gt0 (input h)
            /\ enqueued h = [K_count_positive]
            /\ result_gpu h = [].
Proof.
  intros HB Hn Hmax.
  eexists. split; [exact (profile_filter_runs B n rnd g garbage HB Hn Hmax)|].
  cbn [input bins enqueued result_gpu].
  assert (Hlen : length (map rnd (seq 0 n)) = n)
    by now rewrite length_map, length_seq.
  split; [exact Hlen|].
  unfold block_counts. rewrite Hlen.
  replace (n / local_sz)%nat with B
    by (rewrite Hn, Nat.div_mul; unfold local_sz; lia).
  split; [now rewrite length_map, length_seq|].
  split; [|split; reflexivity].
  apply block_counts_sum. now rewrite Hlen.
Qed.

(** [opencl_main] writes the header and runs [profile_filter] on 1024*1024
    elements: whatever the random input and the content of the device
    memory, the run reaches [verify_vector] after one dispatch of
    [count_positive], with 4096 block counts that add up to the number of
    positive elements, and with [result_gpu] empty. *)
Theorem opencl_main_run (rnd : nat -> float) (g : nat -> Z)
    (garbage : nat -> nat -> float) :
  fst (opencl_main rnd g garbage) = Report.print_column_names
  /\ exists h, snd (opencl_main rnd g garbage) = Ok h
               /\ length (input h) = (1024 * 1024)%nat
               /\ length (bins h) = 4096%nat
               /\ sum_Z (bins h) = count_gt0 (input h)
               /\ enqueued h = [K_count_positive]
               /\ result_gpu h = [].
Proof.
  split; [reflexivity|].
  unfold opencl_main. cbn [snd].
  apply profile_filter_whole_run.
  - lia.
  - unfold local_sz. lia.
  - unfold INT_MAX. lia.
Qed.

(** ** The report *)

Lemma string_length_append (s1 s2 : string) :
  String.length (s1 ++ s2) = (String.length s1 + String.length s2)%nat.
Proof. induction s1 as [|c s1 IH]; simpl; [reflexivity | now rewrite IH]. Qed.

Lemma length_spaces (n : nat) : String.length (Report.spaces n) = n.
Proof. induction n as [|n IH]; simpl; [reflexivity | now rewrite IH]. Qed.

(** A field is as wide as asked, or as wide as its text when that is more. *)
Lemma length_setw (w : nat) (s : string) :
  String.length (Report.setw w s) = Nat.max w (String.length s).
Proof.
  unfold Report.setw. rewrite string_length_append, length_spaces. lia.
Qed.

Lemma length_print_columns (todo : nat) (us : nat -> Z) :
  forall i : nat,
    (20 * todo <= String.length (Report.print_columns todo us i))%nat
    /\ ((forall j, (i <= j < i + todo)%nat ->
           (String.length (Report.us_text (us j)) <= 20)%nat) ->
        String.length (Report.print_columns todo us i) = (20 * todo)%nat).
Proof.
  induction todo as [|todo IH]; intros i; simpl Report.print_columns.
  - split; [simpl; lia | reflexivity].
  - rewrite string_length_append, length_setw.
    destruct (IH (Datatypes.S i)) as [Hge Heq]. split; [lia|].
    intros Hfit. rewrite Heq by (intros j Hj; apply Hfit; lia).
    pose proof (Hfit i ltac:(lia)). lia.
Qed.

(** A row written by [print] is never narrower than the header written by
    [print_column_names], and has exactly its width (119 characters and the
    newline) when the name has at most 19 characters and the text of each of
    the five durations at most 20: the columns then line up. *)
Theorem print_row_lines_up (name : string) (us : nat -> Z) :
  (String.length Report.print_column_names
   <= String.length (Report.print name us))%nat
  /\ ((String.length name <= 19)%nat ->
      (forall i, (i < 5)%nat ->
         (String.length (Report.us_text (us i)) <= 20)%nat) ->
      String.length (Report.print name us)
      = String.length Report.print_column_names).
Proof.
  change (String.length Report.print_column_names) with 120%nat.
  unfold Report.print.
  rewrite !string_length_append, length_setw.
  destruct (length_print_columns 5 us 0) as [Hge Heq].
  change (String.length Report.newline) with 1%nat.
  split; [lia|].
  intros Hname Hfit. rewrite Heq by (intros j Hj; apply Hfit; lia). lia.
Qed.

Lemma print_row_lines_up_witness :
  String.length (Report.print "filter" (fun i => Z.of_nat i * 1234 - 5))
  = String.length Report.print_column_names.
Proof.
  apply (print_row_lines_up "filter" (fun i => Z.of_nat i * 1234 - 5)).
  - simpl. lia.
  - intros i Hi.
    destruct i as [|[|[|[|[|i]]]]]; [vm_compute; lia ..|lia].
Defined.

(** ** Dispatches that do not match the input *)




